(** * sketch-dream: the client-side state holders and the generation client

    A shallow embedding of the state logic found in
    - [DrawingCanvas.tsx]   (undo/redo history of the drawing canvas),
    - [TextPromptInput.tsx] (prompt text, debounced draft, recency list),
    - [ControlParameters.tsx] (generation parameters),
    - [generation-service.ts] (prompt augmentation and request URL),
    - [App.tsx] (the generate action),
    - [ResultDisplay.tsx] (zoom, rating and comparison of the result).

    React state is modelled by explicit state passing: every handler is a
    function from the committed state to the next committed state.  Handlers
    run one at a time (the browser's event loop), and each one closes over
    the state of the render it belongs to, which is the committed state. *)

From Stdlib Require Import ZArith Bool Ascii String List Lia.
From Stdlib Require Import Floats.SpecFloat Numbers.DecimalString Numbers.DecimalZ.
Import ListNotations.
Local Open Scope Z_scope.

(** ** JavaScript strings

    A JavaScript string is a finite sequence of 16-bit code units.  The
    constants of the sources are all ASCII, so they are written as Rocq
    string literals and mapped code unit by code unit. *)

Definition jsstring : Type := list N.

Definition code_unit (c : N) : Prop := (c < 65536)%N.

Definition js (s : string) : jsstring :=
  map N_of_ascii (list_ascii_of_string s).

(** [s.length] *)
Definition jslength (s : jsstring) : Z := Z.of_nat (length s).

(** [a === b] on strings: same code units. *)
Fixpoint jsstring_eqb (a b : jsstring) : bool :=
  match a, b with
  | [], [] => true
  | x :: a', y :: b' => (x =? y)%N && jsstring_eqb a' b'
  | _, _ => false
  end.

Definition jsstring_eq_dec : forall a b : jsstring, {a = b} + {a <> b} :=
  list_eq_dec N.eq_dec.

(** Surrogate code units, D800-DBFF and DC00-DFFF. *)
Definition is_high_surrogate (c : N) : bool := ((55296 <=? c) && (c <=? 56319))%N.
Definition is_low_surrogate (c : N) : bool := ((56320 <=? c) && (c <=? 57343))%N.

(** [s.isWellFormed()]: every surrogate is half of a pair. *)
Fixpoint well_formed (s : jsstring) : bool :=
  match s with
  | [] => true
  | c :: rest =>
      if is_low_surrogate c then false
      else if is_high_surrogate c then
        match rest with
        | d :: rest' => is_low_surrogate d && well_formed rest'
        | [] => false
        end
      else well_formed rest
  end.

(** ** JavaScript arrays, as far as the sources use them *)

(** [arr[i]]: [undefined] (here [None]) outside [0 .. length-1]. *)
Definition array_get {A : Type} (arr : list A) (i : Z) : option A :=
  if i <? 0 then None else nth_error arr (Z.to_nat i).

(** [arr.slice(0, e)]: a negative [e] counts from the end of the array. *)
Definition slice0 {A : Type} (arr : list A) (e : Z) : list A :=
  let len := Z.of_nat (length arr) in
  let final := if e <? 0 then Z.max (len + e) 0 else Z.min e len in
  firstn (Z.to_nat final) arr.

(** [arr.shift()], for the array that is left. *)
Definition shift {A : Type} (arr : list A) : list A := tl arr.

(** ** DrawingCanvas.tsx: the history ring *)

Module DrawingCanvas.

(** The state of the component that the history code reads and writes.
    The contents of the fabric canvas are identified with their
    serialisation [JSON.stringify(canvas.toJSON())], which is what the
    history stores and what [loadFromJSON] is given back; [fabricCanvas] is
    [None] until the mount effect has created the canvas. *)
Record State : Type := mkState {
  fabricCanvas : option jsstring;
  history : list jsstring;
  historyIndex : Z;
  isHistoryProcessing : bool
}.

(** [useState([])], [useState(-1)], [useRef(false)], canvas not created. *)
Definition unmounted : State := mkState None [] (-1) false.

(** The mount effect: creates the canvas (whose serialisation is
    [initialState]) and stores the initial snapshot. *)
Definition mount (initialState : jsstring) (st : State) : State :=
  match fabricCanvas st with
  | Some _ => st
  | None => mkState (Some initialState) [initialState] 0 (isHistoryProcessing st)
  end.

(** The one-entry state every session starts from. *)
Definition initial (initialState : jsstring) : State :=
  mount initialState unmounted.

(** The updater given to [setHistory].  [closureIndex] is the
    [historyIndex] the callback closed over, [prev] the committed array. *)
Definition saveHistory_entries (closureIndex : Z) (json : jsstring)
    (prev : list jsstring) : list jsstring :=
  let newHistory := slice0 prev (closureIndex + 1) in
  let newHistory :=
    if 10 <=? Z.of_nat (length newHistory) then shift newHistory else newHistory in
  newHistory ++ [json].

(** The updater given to [setHistoryIndex]. *)
Definition saveHistory_index (prev : Z) : Z := Z.min (prev + 1) 9.

Definition saveHistory (st : State) : State :=
  match fabricCanvas st with
  | None => st
  | Some json =>
      if isHistoryProcessing st then st
      else mkState (Some json)
             (saveHistory_entries (historyIndex st) json (history st))
             (saveHistory_index (historyIndex st))
             false
  end.

(** The canvas contents change to [json]: a finished stroke, or
    [canvas.clear()] followed by the white background. *)
Definition paint (json : jsstring) (st : State) : State :=
  match fabricCanvas st with
  | None => st
  | Some _ => mkState (Some json) (history st) (historyIndex st) (isHistoryProcessing st)
  end.

(** The ['path:created'] listener: a stroke was drawn, then [saveHistory()]. *)
Definition handlePathCreated (json : jsstring) (st : State) : State :=
  saveHistory (paint json st).

(** [clearCanvas]; [blank] is the serialisation of the cleared canvas. *)
Definition clearCanvas (blank : jsstring) (st : State) : State :=
  saveHistory (paint blank st).

(** The common tail of [undo] and [redo]: raise the guard, move the
    cursor, load the snapshot, lower the guard.  [JSON.parse(undefined)]
    throws, which leaves the guard raised and the cursor moved. *)
Definition restore (newIndex : Z) (st : State) : State :=
  match array_get (history st) newIndex with
  | Some snapshot => mkState (Some snapshot) (history st) newIndex false
  | None => mkState (fabricCanvas st) (history st) newIndex true
  end.

Definition undo (st : State) : State :=
  match fabricCanvas st with
  | None => st
  | Some _ =>
      if historyIndex st <=? 0 then st
      else restore (historyIndex st - 1) st
  end.

Definition redo (st : State) : State :=
  match fabricCanvas st with
  | None => st
  | Some _ =>
      if Z.of_nat (length (history st)) - 1 <=? historyIndex st then st
      else restore (historyIndex st + 1) st
  end.

(** The operations of the ring as the user triggers them. *)
Inductive Op : Type :=
| Push (snapshot : jsstring)
| Undo
| Redo.

Definition step (st : State) (op : Op) : State :=
  match op with
  | Push snapshot => handlePathCreated snapshot st
  | Undo => undo st
  | Redo => redo st
  end.

Definition run (ops : list Op) (st : State) : State := fold_left step ops st.

(** The snapshot the canvas shows. *)
Definition visible (st : State) : option jsstring := fabricCanvas st.

(** What holds between any two handlers. *)
Record ring_ok (st : State) : Prop := mkRingOk {
  ok_cap : (length (history st) <= 10)%nat;
  ok_cursor : 0 <= historyIndex st < Z.of_nat (length (history st));
  ok_idle : isHistoryProcessing st = false;
  ok_shown : fabricCanvas st <> None /\
             fabricCanvas st = array_get (history st) (historyIndex st)
}.

End DrawingCanvas.

(** ** TextPromptInput.tsx: the prompt store *)

Module TextPromptInput.

(** WhiteSpace and LineTerminator code points of ECMAScript, the ones
    [String.prototype.trim] strips.  All of them are single code units. *)
Definition is_white_space (c : N) : bool :=
  ((c =? 9) || (c =? 10) || (c =? 11) || (c =? 12) || (c =? 13) || (c =? 32) ||
   (c =? 160) || (c =? 5760) || ((8192 <=? c) && (c <=? 8202)) ||
   (c =? 8232) || (c =? 8233) || (c =? 8239) || (c =? 8287) || (c =? 12288) ||
   (c =? 65279))%N.

Fixpoint trim_start (s : jsstring) : jsstring :=
  match s with
  | c :: s' => if is_white_space c then trim_start s' else s
  | [] => []
  end.

Definition trim_end (s : jsstring) : jsstring := rev (trim_start (rev s)).

(** [s.trim()] *)
Definition trim (s : jsstring) : jsstring := trim_end (trim_start s).

(** [!s] on a string: only the empty string is falsy. *)
Definition is_falsy (s : jsstring) : bool :=
  match s with [] => true | _ :: _ => false end.

(** The two slots of [localStorage] the component uses.  The history slot
    holds [JSON.stringify] of an array of strings, kept here as the array. *)
Record Storage : Type := mkStorage {
  prompt_draft : option jsstring;
  prompt_history : option (list jsstring)
}.

(** [saveTimeout] holds the pending timer, if any, together with the value
    its callback will store; [notified] lists the arguments
    [onPromptChange] was called with, latest first. *)
Record State : Type := mkState {
  prompt : jsstring;
  history : list jsstring;
  saveTimeout : option jsstring;
  localStorage : Storage;
  notified : list jsstring
}.

Definition addToHistory (text : jsstring) (st : State) : State :=
  if is_falsy (trim text) then st
  else
    let newHistory :=
      slice0 (text :: filter (fun h => negb (jsstring_eqb h text)) (history st)) 10 in
    mkState (prompt st) newHistory (saveTimeout st)
      (mkStorage (prompt_draft (localStorage st)) (Some newHistory))
      (notified st).

(** [handleChange] with [e.target.value = value].  A pending timer is
    cleared and a new one is armed with the new value. *)
Definition handleChange (maxLength : Z) (value : jsstring) (st : State) : State :=
  if jslength value <=? maxLength then
    mkState value (history st) (Some value) (localStorage st) (value :: notified st)
  else st.

(** The armed timer fires after its 2000 ms: the draft is stored. *)
Definition saveTimeout_fires (st : State) : State :=
  match saveTimeout st with
  | Some value =>
      mkState (prompt st) (history st) None
        (mkStorage (Some value) (prompt_history (localStorage st)))
        (notified st)
  | None => st
  end.

Definition handleClear (st : State) : State :=
  mkState [] (history st) (saveTimeout st)
    (mkStorage None (prompt_history (localStorage st)))
    ([] :: notified st).

Definition applyTemplate (templateText : jsstring) (st : State) : State :=
  addToHistory templateText
    (mkState templateText (history st) (saveTimeout st) (localStorage st)
       (templateText :: notified st)).

(** The default of the [maxLength] prop. *)
Definition default_maxLength : Z := 500.

(** A click on one of the recent prompts under the text area. *)
Definition pickRecent (item : jsstring) (st : State) : State :=
  mkState item (history st) (saveTimeout st) (localStorage st) (item :: notified st).

(** The component before its mount effect, over a given [localStorage]. *)
Definition unmounted (storage : Storage) : State :=
  mkState [] [] None storage [].

(** The mount effect: the stored history, if any, becomes the recency
    list, and a stored draft, unless empty, becomes the prompt. *)
Definition mount (st : State) : State :=
  let st1 :=
    match prompt_history (localStorage st) with
    | Some savedHistory =>
        mkState (prompt st) savedHistory (saveTimeout st) (localStorage st) (notified st)
    | None => st
    end in
  match prompt_draft (localStorage st) with
  | Some savedDraft =>
      if is_falsy savedDraft then st1
      else mkState savedDraft (history st1) (saveTimeout st1) (localStorage st1)
             (savedDraft :: notified st1)
  | None => st1
  end.

(** What can happen to the mounted component. *)
Inductive Event : Type :=
| Change (value : jsstring)
| TimerFires
| Clear
| Template (templateText : jsstring)
| PickRecent (item : jsstring).

Definition step (maxLength : Z) (st : State) (ev : Event) : State :=
  match ev with
  | Change value => handleChange maxLength value st
  | TimerFires => saveTimeout_fires st
  | Clear => handleClear st
  | Template templateText => applyTemplate templateText st
  | PickRecent item => pickRecent item st
  end.

Definition run (maxLength : Z) (evs : list Event) (st : State) : State :=
  fold_left (step maxLength) evs st.

(** The recency list as the handlers keep it: no text twice, at most 10
    texts, none of them blank, and stored as it is shown. *)
Definition recency_ok (st : State) : Prop :=
  NoDup (history st) /\
  (length (history st) <= 10)%nat /\
  Forall (fun h => forallb is_white_space h = false) (history st) /\
  match prompt_history (localStorage st) with
  | Some stored => stored = history st
  | None => history st = []
  end.

End TextPromptInput.

(** ** sketch-dream.ts: the types of the generation parameters

    TypeScript's types are erased at run time: a style is a string and
    the numeric fields are numbers.  The declared ranges are kept as an
    enumeration with its string values. *)

Inductive StylePreset : Type :=
| Photorealistic | DigitalArt | OilPainting | Anime
| Sketch | Watercolor | Cyberpunk | Fantasy.

Definition style_name (p : StylePreset) : jsstring :=
  match p with
  | Photorealistic => js "photorealistic"
  | DigitalArt => js "digital-art"
  | OilPainting => js "oil-painting"
  | Anime => js "anime"
  | Sketch => js "sketch"
  | Watercolor => js "watercolor"
  | Cyberpunk => js "cyberpunk"
  | Fantasy => js "fantasy"
  end.

Definition all_styles : list StylePreset :=
  [Photorealistic; DigitalArt; OilPainting; Anime; Sketch; Watercolor; Cyberpunk; Fantasy].

(** [resolution] is optional: [None] is the absent field.  The numbers
    are only stored and compared, never computed with. *)
Record GenerationParams : Type := mkParams {
  sketchStrength : Z;
  style : jsstring;
  variations : Z;
  resolution : option jsstring
}.

(** ** ControlParameters.tsx: the parameter panel *)

Module ControlParameters.

Definition DEFAULT_PARAMS : GenerationParams :=
  mkParams 70 (js "photorealistic") 1 None.

(** [keyof GenerationParams] and the type of the value at each key. *)
Inductive Key : Type := KSketchStrength | KStyle | KVariations | KResolution.

Definition Value (k : Key) : Type :=
  match k with
  | KSketchStrength => Z
  | KStyle => jsstring
  | KVariations => Z
  | KResolution => option jsstring
  end.

(** [params[key]] *)
Definition get (k : Key) (p : GenerationParams) : Value k :=
  match k with
  | KSketchStrength => sketchStrength p
  | KStyle => style p
  | KVariations => variations p
  | KResolution => resolution p
  end.

(** The updater of [updateParam]: [{ ...prev, [key]: value }]. *)
Definition updateParam (k : Key) : Value k -> GenerationParams -> GenerationParams :=
  match k with
  | KSketchStrength => fun v prev => mkParams v (style prev) (variations prev) (resolution prev)
  | KStyle => fun v prev => mkParams (sketchStrength prev) v (variations prev) (resolution prev)
  | KVariations => fun v prev => mkParams (sketchStrength prev) (style prev) v (resolution prev)
  | KResolution => fun v prev => mkParams (sketchStrength prev) (style prev) (variations prev) v
  end.

(** [resetToDefaults]: [setParams(DEFAULT_PARAMS)]. *)
Definition resetToDefaults (prev : GenerationParams) : GenerationParams :=
  DEFAULT_PARAMS.

End ControlParameters.

(** ** JavaScript numbers, as far as the seed needs them

    A Number is an IEEE 754 binary64 value; the operations are those of
    the standard library's specification of floating-point arithmetic. *)

Module Number.

Definition prec : Z := 53.
Definition emax : Z := 1024.

Definition number : Type := spec_float.

(** [x * y] *)
Definition mul (x y : number) : number := SFmul prec emax x y.

(** The Number of an integer literal. *)
Definition of_Z (n : Z) : number := binary_normalize prec emax n 0 false.

(** What [Math.random()] may return: a Number of positive sign, at least
    0 and strictly below 1. *)
Definition in_unit_interval (x : number) : bool :=
  valid_binary prec emax x &&
  match x with
  | S754_zero false => true
  | S754_finite false _ _ => SFltb x (of_Z 1)
  | _ => false
  end.

Record RandomNumber : Type := mkRandom {
  random_value : number;
  random_spec : in_unit_interval random_value = true
}.

(** [Math.floor(x)] as the integer it denotes, for a finite [x]: the
    value of [S754_finite s m e] is [(-1)^s * m * 2^e], and [Z.shiftl]
    by a negative amount divides rounding down.  NaN and the infinities
    denote no integer; they are given 0 here and never arise from the
    product of a [RandomNumber] with a finite constant. *)
Definition floor (x : number) : Z :=
  match x with
  | S754_finite s m e => Z.shiftl (if s then Z.neg m else Z.pos m) e
  | _ => 0
  end.

(** [`${n}`] for an integer-valued Number below 10^21: its decimal
    numeral, with a minus sign when negative. *)
Definition toString (n : Z) : jsstring := js (NilEmpty.string_of_int (Z.to_int n)).

End Number.

(** ** generation-service.ts *)

Module GenerationService.

(** The values a property read on the suffix table can give. *)
Inductive JSValue : Type :=
| VUndefined
| VString (s : jsstring)
| VObjectPrototype
| VNativeFunction (name : jsstring).

Definition styleSuffixes : list (jsstring * jsstring) :=
  [ (js "photorealistic", js ", highly detailed, photorealistic, 8k resolution, cinematic lighting, photography");
    (js "digital-art", js ", digital art, trending on artstation, sharp focus, vibrant colors");
    (js "oil-painting", js ", oil painting texture, classic art style, visible brushstrokes");
    (js "anime", js ", anime style, studio ghibli, vibrant, cel shaded, clean lines");
    (js "sketch", js ", pencil sketch, charcoal drawing, rough lines, artistic");
    (js "watercolor", js ", watercolor painting, soft edges, pastel colors, artistic splatter");
    (js "cyberpunk", js ", cyberpunk, neon lights, futuristic, high tech, dark atmosphere");
    (js "fantasy", js ", high fantasy, magical, ethereal, dreamlike, intricate details") ].

(** The own properties of an object literal with string values. *)
Fixpoint own_property (o : list (jsstring * jsstring)) (key : jsstring) : option jsstring :=
  match o with
  | [] => None
  | (k, v) :: o' => if jsstring_eqb k key then Some v else own_property o' key
  end.

(** The function-valued properties of [Object.prototype] other than
    [constructor]; each is a built-in function of that name. *)
Definition Object_prototype_methods : list jsstring :=
  [ js "__defineGetter__"; js "__defineSetter__"; js "__lookupGetter__";
    js "__lookupSetter__"; js "hasOwnProperty"; js "isPrototypeOf";
    js "propertyIsEnumerable"; js "toLocaleString"; js "toString"; js "valueOf" ].

(** The names [Object.prototype] answers to. *)
Definition inherited_names : list jsstring :=
  js "__proto__" :: js "constructor" :: Object_prototype_methods.

(** [o[key]] on an object literal: its own properties, then those of its
    prototype [Object.prototype].  The [__proto__] accessor returns the
    prototype of the object. *)
Definition get_property (o : list (jsstring * jsstring)) (key : jsstring) : JSValue :=
  match own_property o key with
  | Some v => VString v
  | None =>
      if jsstring_eqb key (js "__proto__") then VObjectPrototype
      else if jsstring_eqb key (js "constructor") then VNativeFunction (js "Object")
      else if existsb (jsstring_eqb key) Object_prototype_methods then VNativeFunction key
      else VUndefined
  end.

Definition ToBoolean (v : JSValue) : bool :=
  match v with
  | VUndefined => false
  | VString [] => false
  | VString (_ :: _) => true
  | VObjectPrototype => true
  | VNativeFunction _ => true
  end.

(** [v || d] *)
Definition or_else (v d : JSValue) : JSValue := if ToBoolean v then v else d.

(** The string a template literal puts in for a value.  The source text
    of a built-in function is written as V8 writes it. *)
Definition ToString (v : JSValue) : jsstring :=
  match v with
  | VUndefined => js "undefined"
  | VString s => s
  | VObjectPrototype => js "[object Object]"
  | VNativeFunction name => js "function " ++ name ++ js "() { [native code] }"
  end.

Definition enhancePrompt (prompt style : jsstring) : jsstring :=
  prompt ++ ToString (or_else (get_property styleSuffixes style) (VString [])).

(** *** [encodeURIComponent] *)

(** A-Z a-z 0-9 - _ . ! ~ * ' ( ) *)
Definition uri_unescaped (c : N) : bool :=
  (((65 <=? c) && (c <=? 90)) || ((97 <=? c) && (c <=? 122)) ||
   ((48 <=? c) && (c <=? 57)) ||
   (c =? 45) || (c =? 95) || (c =? 46) || (c =? 33) || (c =? 126) ||
   (c =? 42) || (c =? 39) || (c =? 40) || (c =? 41))%N.

(** The code point of a surrogate pair. *)
Definition pair_code_point (hi lo : N) : N :=
  ((hi - 55296) * 1024 + (lo - 56320) + 65536)%N.

(** The octets of the UTF-8 encoding of a code point. *)
Definition utf8_octets (cp : N) : list N :=
  (if cp <? 128 then [cp]
   else if cp <? 2048 then
     [N.lor 192 (N.shiftr cp 6); N.lor 128 (N.land cp 63)]
   else if cp <? 65536 then
     [N.lor 224 (N.shiftr cp 12); N.lor 128 (N.land (N.shiftr cp 6) 63);
      N.lor 128 (N.land cp 63)]
   else
     [N.lor 240 (N.shiftr cp 18); N.lor 128 (N.land (N.shiftr cp 12) 63);
      N.lor 128 (N.land (N.shiftr cp 6) 63); N.lor 128 (N.land cp 63)])%N.

(** An upper-case hexadecimal digit. *)
Definition hex_digit (n : N) : N := (if n <? 10 then 48 + n else 55 + n)%N.

(** [%XX] for one octet. *)
Definition percent_octet (b : N) : jsstring :=
  [37%N; hex_digit (N.shiftr b 4); hex_digit (N.land b 15)].

Definition percent_octets (bs : list N) : jsstring := flat_map percent_octet bs.

Inductive Error : Type := URIError.

(** [None] is the [URIError] thrown at an unpaired surrogate. *)
Fixpoint encodeURIComponent (s : jsstring) : option jsstring :=
  match s with
  | [] => Some []
  | c :: rest =>
      if uri_unescaped c then option_map (cons c) (encodeURIComponent rest)
      else if is_low_surrogate c then None
      else if is_high_surrogate c then
        match rest with
        | d :: rest' =>
            if is_low_surrogate d then
              option_map (app (percent_octets (utf8_octets (pair_code_point c d))))
                (encodeURIComponent rest')
            else None
        | [] => None
        end
      else option_map (app (percent_octets (utf8_octets c))) (encodeURIComponent rest)
  end.

(** *** [generateImage] *)

Record Metadata : Type := mkMetadata {
  generationTime : Z;
  model : jsstring;
  seed : option Z
}.

(** [GenerationResponse]; the optional fields are [None] when absent. *)
Record GenerationResponse : Type := mkResponse {
  success : bool;
  images : list jsstring;
  error : option jsstring;
  metadata : option Metadata;
  imageUrl : option jsstring
}.

(** How the promise of an async function settles. *)
Inductive Promise (A : Type) : Type :=
| Fulfilled (value : A)
| Rejected (reason : Error).
Arguments Fulfilled {A} value.
Arguments Rejected {A} reason.

(** [Math.floor(Math.random() * 1000000)], [random] being what
    [Math.random()] returned. *)
Definition draw_seed (random : Number.RandomNumber) : Z :=
  Number.floor (Number.mul (Number.random_value random) (Number.of_Z 1000000)).

(** The template literal that builds the request URL. *)
Definition request_url (encodedPrompt : jsstring) (width height seed : Z) : jsstring :=
  js "https://image.pollinations.ai/prompt/" ++ encodedPrompt ++
  js "?width=" ++ Number.toString width ++
  js "&height=" ++ Number.toString height ++
  js "&seed=" ++ Number.toString seed ++
  js "&nologo=true&model=flux".

(** [random] is the value the call of [Math.random()] returns. *)
Definition generateImage (random : Number.RandomNumber)
    (prompt sketch : jsstring) (params : GenerationParams)
  : Promise GenerationResponse :=
  let seed := draw_seed random in
  let enhancedPrompt := enhancePrompt prompt (style params) in
  match encodeURIComponent enhancedPrompt with
  | None => Rejected URIError
  | Some encodedPrompt =>
      let width := 512 in
      let height := 512 in
      let imageUrl := request_url encodedPrompt width height seed in
      Fulfilled
        (mkResponse true [imageUrl] None
           (Some (mkMetadata 1000 (js "pollinations-flux") (Some seed)))
           (Some imageUrl))
  end.

End GenerationService.

(** ** Reading a request URL back

    The receiving end of the URL: its last path segment, the fields of its
    query, and [decodeURIComponent].  The statements about the URL that
    [generateImage] builds are made through these. *)

Module URL.

(** The part of [s] before the first [sep], and the part after it if
    there is one. *)
Fixpoint split_first (sep : N) (s : jsstring) : jsstring * option jsstring :=
  match s with
  | [] => ([], None)
  | c :: s' =>
      if (c =? sep)%N then ([], Some s')
      else let (before, after) := split_first sep s' in (c :: before, after)
  end.

(** [s.split(sep)], as its first piece and the others. *)
Fixpoint split (sep : N) (s : jsstring) : jsstring * list jsstring :=
  match s with
  | [] => ([], [])
  | c :: s' =>
      let (piece, others) := split sep s' in
      if (c =? sep)%N then ([], piece :: others) else (c :: piece, others)
  end.

Definition pieces (sep : N) (s : jsstring) : list jsstring :=
  let (piece, others) := split sep s in piece :: others.

(** The text after the last [/] of what precedes the [?]. *)
Definition last_path_segment (url : jsstring) : jsstring :=
  last (pieces 47 (fst (split_first 63 url))) [].

(** The [name=value] fields of the query, in order. *)
Definition query_fields (url : jsstring) : list (jsstring * option jsstring) :=
  match snd (split_first 63 url) with
  | Some query => map (split_first 61) (pieces 38 query)
  | None => []
  end.

Fixpoint lookup_field (name : jsstring) (fields : list (jsstring * option jsstring))
  : option jsstring :=
  match fields with
  | [] => None
  | (n, v) :: fields' => if jsstring_eqb n name then v else lookup_field name fields'
  end.

(** The value of the first query field called [name]. *)
Definition query_get (name : jsstring) (url : jsstring) : option jsstring :=
  lookup_field name (query_fields url).

(** *** [decodeURIComponent] *)

Definition hex_value (c : N) : option N :=
  (if (48 <=? c) && (c <=? 57) then Some (c - 48)
   else if (65 <=? c) && (c <=? 70) then Some (c - 55)
   else if (97 <=? c) && (c <=? 102) then Some (c - 87)
   else None)%N.

(** A code unit that stands for itself, or the octet of a [%XX]. *)
Inductive Item : Type := Lit (c : N) | Oct (b : N).

Fixpoint unescape (s : jsstring) : option (list Item) :=
  match s with
  | [] => Some []
  | c :: rest =>
      if (c =? 37)%N then
        match rest with
        | h :: l :: rest' =>
            match hex_value h, hex_value l with
            | Some a, Some b => option_map (cons (Oct (16 * a + b))) (unescape rest')
            | _, _ => None
            end
        | _ => None
        end
      else option_map (cons (Lit c)) (unescape rest)
  end.

(** The payload of a continuation octet [10xxxxxx]. *)
Definition continuation (i : Item) : option N :=
  match i with
  | Oct b => if ((128 <=? b) && (b <=? 191))%N then Some (b - 128)%N else None
  | Lit _ => None
  end.

(** The UTF-16 code units of a code point. *)
Definition utf16_units (cp : N) : jsstring :=
  (if cp <? 65536 then [cp]
   else [55296 + (cp - 65536) / 1024; 56320 + (cp - 65536) mod 1024])%N.

(** Octet runs are read as UTF-8; over-long forms, surrogates and code
    points above 10FFFF are refused. *)
Fixpoint utf8_decode (items : list Item) : option jsstring :=
  match items with
  | [] => Some []
  | Lit c :: rest => option_map (cons c) (utf8_decode rest)
  | Oct b :: rest =>
      if (b <? 128)%N then option_map (cons b) (utf8_decode rest)
      else if ((192 <=? b) && (b <? 224))%N then
        match rest with
        | i1 :: rest1 =>
            match continuation i1 with
            | Some x1 =>
                let cp := ((b - 192) * 64 + x1)%N in
                if (128 <=? cp)%N then option_map (app (utf16_units cp)) (utf8_decode rest1)
                else None
            | None => None
            end
        | _ => None
        end
      else if ((224 <=? b) && (b <? 240))%N then
        match rest with
        | i1 :: i2 :: rest2 =>
            match continuation i1, continuation i2 with
            | Some x1, Some x2 =>
                let cp := (((b - 224) * 64 + x1) * 64 + x2)%N in
                if ((2048 <=? cp) && negb ((55296 <=? cp) && (cp <=? 57343)))%N
                then option_map (app (utf16_units cp)) (utf8_decode rest2)
                else None
            | _, _ => None
            end
        | _ => None
        end
      else if ((240 <=? b) && (b <? 248))%N then
        match rest with
        | i1 :: i2 :: i3 :: rest3 =>
            match continuation i1, continuation i2, continuation i3 with
            | Some x1, Some x2, Some x3 =>
                let cp := ((((b - 240) * 64 + x1) * 64 + x2) * 64 + x3)%N in
                if ((65536 <=? cp) && (cp <=? 1114111))%N
                then option_map (app (utf16_units cp)) (utf8_decode rest3)
                else None
            | _, _, _ => None
            end
        | _ => None
        end
      else None
  end.

(** [None] is the [URIError] of a malformed escape. *)
Definition decodeURIComponent (s : jsstring) : option jsstring :=
  match unescape s with
  | Some items => utf8_decode items
  | None => None
  end.

End URL.

(** ** App.tsx: the generate action *)

Module App.

(** The state of [App] that [handleGenerate] reads and writes. *)
Record State : Type := mkState {
  prompt : jsstring;
  params : GenerationParams;
  isGenerating : bool;
  resultImage : option jsstring;
  lastSketch : option jsstring
}.

(** The [useState] initial values. *)
Definition initial : State :=
  mkState [] (mkParams 70 (js "photorealistic") 1 None) false None None.






End App.

(** ** ResultDisplay.tsx: the result viewer *)

Module ResultDisplay.

(** The Number [m * 2^e] of a literal. *)
Definition literal (m e : Z) : Number.number :=
  binary_normalize Number.prec Number.emax m e false.

Definition is_nan (x : Number.number) : bool :=
  match x with S754_nan => true | _ => false end.

(** [Math.max(x, y)]: NaN if either is NaN; +0 counts as larger than -0. *)
Definition Math_max (x y : Number.number) : Number.number :=
  if is_nan x || is_nan y then S754_nan
  else match x, y with
       | S754_zero sx, S754_zero sy => S754_zero (sx && sy)
       | _, _ => if SFltb x y then y else x
       end.

(** [Math.min(x, y)]: NaN if either is NaN; -0 counts as smaller than +0. *)
Definition Math_min (x y : Number.number) : Number.number :=
  if is_nan x || is_nan y then S754_nan
  else match x, y with
       | S754_zero sx, S754_zero sy => S754_zero (sx || sy)
       | _, _ => if SFltb y x then y else x
       end.

Record State : Type := mkState {
  sliderPosition : Z;
  zoom : Number.number;
  isComparing : bool;
  rating : Z
}.

(** [useState(50)], [useState(1)], [useState(true)], [useState(0)]. *)
Definition initial : State := mkState 50 (literal 1 0) true 0.

(** The effect on [generatedImage]: a new image (not null, not empty)
    resets slider, zoom and rating. *)
Definition image_arrives (generatedImage : option jsstring) (st : State) : State :=
  match generatedImage with
  | Some (_ :: _) => mkState 50 (literal 1 0) (isComparing st) 0
  | _ => st
  end.

(** [setZoom(Math.max(0.5, zoom - 0.25))] *)
Definition zoomOut (st : State) : State :=
  mkState (sliderPosition st)
    (Math_max (literal 1 (-1)) (SFsub Number.prec Number.emax (zoom st) (literal 1 (-2))))
    (isComparing st) (rating st).

(** [setZoom(Math.min(3, zoom + 0.25))] *)
Definition zoomIn (st : State) : State :=
  mkState (sliderPosition st)
    (Math_min (literal 3 0) (SFadd Number.prec Number.emax (zoom st) (literal 1 (-2))))
    (isComparing st) (rating st).

Definition toggleComparing (st : State) : State :=
  mkState (sliderPosition st) (zoom st) (negb (isComparing st)) (rating st).

Definition setRating (s : Z) (st : State) : State :=
  mkState (sliderPosition st) (zoom st) (isComparing st) s.

Definition setSliderPosition (position : Z) (st : State) : State :=
  mkState position (zoom st) (isComparing st) (rating st).

Inductive Event : Type :=
| ImageArrives (generatedImage : option jsstring)
| ZoomOut
| ZoomIn
| ToggleComparing
| Rate (s : Z)
| Slide (position : Z).

Definition step (st : State) (ev : Event) : State :=
  match ev with
  | ImageArrives generatedImage => image_arrives generatedImage st
  | ZoomOut => zoomOut st
  | ZoomIn => zoomIn st
  | ToggleComparing => toggleComparing st
  | Rate s => setRating s st
  | Slide position => setSliderPosition position st
  end.

Definition run (evs : list Event) (st : State) : State := fold_left step evs st.

(** The zoom factors 0.5, 0.75, ..., 3: [k/4] for [k] from 2 to 12. *)
Definition zoom_levels : list Number.number :=
  map (fun k => literal (Z.of_nat k) (-2)) (seq 2 11).

(** Structural equality of Numbers. *)
Definition number_eqb (x y : Number.number) : bool :=
  match x, y with
  | S754_zero s, S754_zero t => Bool.eqb s t
  | S754_infinity s, S754_infinity t => Bool.eqb s t
  | S754_nan, S754_nan => true
  | S754_finite s m e, S754_finite t n f => Bool.eqb s t && (m =? n)%positive && (e =? f)
  | _, _ => false
  end.

End ResultDisplay.

(** * Properties *)

(** ** The history ring *)

Section HistoryRing.
Import DrawingCanvas.

Lemma slice0_in_range {A : Type} (arr : list A) (i : Z) :
  0 <= i < Z.of_nat (length arr) ->
  slice0 arr (i + 1) = firstn (S (Z.to_nat i)) arr.
Proof.
  intros Hi. unfold slice0.
  destruct (i + 1 <? 0) eqn:E; [apply Z.ltb_lt in E; lia|].
  f_equal. lia.
Qed.

Lemma length_firstn_cursor {A : Type} (arr : list A) (i : Z) :
  0 <= i < Z.of_nat (length arr) ->
  Z.of_nat (length (firstn (S (Z.to_nat i)) arr)) = i + 1.
Proof. intros Hi. rewrite length_firstn. lia. Qed.

(** What the [setHistory] updater computes when the cursor is inside the
    array: below the cap nothing is evicted, at the cap (cursor 9) the
    oldest entry goes. *)
Lemma saveHistory_entries_in_range (i : Z) (json : jsstring) (prev : list jsstring) :
  0 <= i < Z.of_nat (length prev) -> (length prev <= 10)%nat ->
  saveHistory_entries i json prev =
    (if i =? 9 then tl prev else firstn (S (Z.to_nat i)) prev) ++ [json].
Proof.
  intros Hi Hcap. unfold saveHistory_entries, shift.
  rewrite (slice0_in_range _ _ Hi), (length_firstn_cursor _ _ Hi).
  destruct (i =? 9) eqn:E9.
  - apply Z.eqb_eq in E9. subst i.
    replace (10 <=? 9 + 1) with true by reflexivity.
    rewrite firstn_all2 by (simpl; lia). reflexivity.
  - apply Z.eqb_neq in E9.
    destruct (10 <=? i + 1) eqn:E; [apply Z.leb_le in E; lia | reflexivity].
Qed.

Lemma array_get_last {A : Type} (l : list A) (x : A) :
  array_get (l ++ [x]) (Z.of_nat (length l)) = Some x.
Proof.
  unfold array_get.
  destruct (Z.of_nat (length l) <? 0) eqn:E; [apply Z.ltb_lt in E; lia|].
  rewrite Nat2Z.id, nth_error_app2, Nat.sub_diag by lia. reflexivity.
Qed.

Lemma array_get_in_range {A : Type} (l : list A) (i : Z) :
  0 <= i < Z.of_nat (length l) -> exists x, array_get l i = Some x.
Proof.
  intros Hi. unfold array_get.
  destruct (i <? 0) eqn:E; [apply Z.ltb_lt in E; lia|].
  destruct (nth_error l (Z.to_nat i)) eqn:En; [eauto|].
  apply nth_error_None in En. lia.
Qed.

Lemma ring_ok_initial (s0 : jsstring) : ring_ok (initial s0).
Proof. constructor; cbn; try lia; auto. split; [discriminate | reflexivity]. Qed.

(** A push on a well-formed ring, written out. *)
Lemma push_ok (json : jsstring) (st : State) :
  ring_ok st ->
  handlePathCreated json st =
    mkState (Some json)
      ((if historyIndex st =? 9 then tl (history st)
        else firstn (S (Z.to_nat (historyIndex st))) (history st)) ++ [json])
      (Z.min (historyIndex st + 1) 9) false.
Proof.
  intros [Hcap Hcur Hidle [Hc _]].
  unfold handlePathCreated, paint, saveHistory.
  destruct (fabricCanvas st) as [c|] eqn:Ec; [|congruence]. cbn.
  rewrite Hidle, saveHistory_entries_in_range by assumption. reflexivity.
Qed.

Lemma ring_ok_push (json : jsstring) (st : State) :
  ring_ok st -> ring_ok (handlePathCreated json st).
Proof.
  intros Hok. rewrite (push_ok json st Hok).
  destruct Hok as [Hcap Hcur Hidle _].
  assert (Hlen : Z.of_nat (length
            (if historyIndex st =? 9 then tl (history st)
             else firstn (S (Z.to_nat (historyIndex st))) (history st)))
          = Z.min (historyIndex st + 1) 9).
  { destruct (historyIndex st =? 9) eqn:E9.
    - apply Z.eqb_eq in E9. destruct (history st); simpl in *; lia.
    - apply Z.eqb_neq in E9. rewrite length_firstn. lia. }
  constructor; cbn [history historyIndex isHistoryProcessing fabricCanvas].
  - rewrite length_app. cbn [length]. lia.
  - rewrite length_app. cbn [length]. lia.
  - reflexivity.
  - split; [discriminate|]. rewrite <- Hlen. symmetry. apply array_get_last.
Qed.

Lemma restore_ok (i : Z) (st : State) :
  ring_ok st -> 0 <= i < Z.of_nat (length (history st)) ->
  ring_ok (restore i st) /\
  restore i st = mkState (array_get (history st) i) (history st) i false.
Proof.
  intros [Hcap Hcur Hidle Hshown] Hi. unfold restore.
  destruct (array_get_in_range _ _ Hi) as [x Hx]. rewrite Hx.
  split; [|reflexivity].
  constructor; cbn; auto. split; [discriminate | congruence].
Qed.

Lemma ring_ok_undo (st : State) : ring_ok st -> ring_ok (undo st).
Proof.
  intros Hok. unfold undo. destruct (fabricCanvas st); [|assumption].
  destruct (historyIndex st <=? 0) eqn:E; [assumption|].
  apply Z.leb_gt in E. apply restore_ok; [assumption|].
  destruct Hok. lia.
Qed.

Lemma ring_ok_redo (st : State) : ring_ok st -> ring_ok (redo st).
Proof.
  intros Hok. unfold redo. destruct (fabricCanvas st); [|assumption].
  destruct (Z.of_nat (length (history st)) - 1 <=? historyIndex st) eqn:E; [assumption|].
  apply Z.leb_gt in E. apply restore_ok; [assumption|].
  destruct Hok. lia.
Qed.

Lemma ring_ok_step (st : State) (op : Op) : ring_ok st -> ring_ok (step st op).
Proof.
  destruct op; cbn; auto using ring_ok_push, ring_ok_undo, ring_ok_redo.
Qed.

Lemma ring_ok_run (ops : list Op) : forall st, ring_ok st -> ring_ok (run ops st).
Proof.
  unfold run. induction ops as [|op ops IH]; intros st Hok; cbn; [assumption|].
  apply IH, ring_ok_step, Hok.
Qed.

(** C1. Whatever sequence of push, undo and redo is run from the initial
    one-entry ring, the ring holds at most 10 entries, it is not empty and
    its cursor is a valid index ([0 <= historyIndex < history.length]); a
    further push at cursor 9, the only place where the append would pass
    the cap, drops the oldest entry, and below cursor 9 it keeps the
    entries up to the cursor. *)
Theorem history_ring_invariant (s0 : jsstring) (ops : list Op) :
  let st := run ops (initial s0) in
  (length (history st) <= 10)%nat /\
  history st <> [] /\
  0 <= historyIndex st < Z.of_nat (length (history st)) /\
  forall snapshot,
    history (step st (Push snapshot)) =
      (if historyIndex st =? 9 then tl (history st)
       else firstn (S (Z.to_nat (historyIndex st))) (history st)) ++ [snapshot]
    /\ (length (history (step st (Push snapshot))) <= 10)%nat.
Proof.
  intros st.
  assert (Hok : ring_ok st) by apply ring_ok_run, ring_ok_initial.
  pose proof Hok as [Hcap Hcur Hidle Hshown].
  repeat split; try assumption; try lia.
  - intros E. rewrite E in Hcur. simpl in Hcur. lia.
  - cbn [step]. rewrite (push_ok snapshot st Hok). reflexivity.
  - apply (ring_ok_step st (Push snapshot)) in Hok. apply Hok.
Qed.

(** C2. A push on a well-formed ring keeps the entries up to the cursor and
    discards those after it, drops the oldest kept entry when ten are
    kept, appends the snapshot, and leaves the cursor on the new last
    index, which is the old cursor plus one capped at 9.  In particular,
    from entries [a,b,c] at cursor 2, undo moves the cursor to 1 and a
    push of d then gives entries [a,b,d] at cursor 2. *)
Theorem push_after_undo_discards_future (st : State) (json : jsstring)
    (Hok : ring_ok st) :
  (let kept := firstn (S (Z.to_nat (historyIndex st))) (history st) in
   let st' := handlePathCreated json st in
   history st' = (if (10 <=? length kept)%nat then tl kept else kept) ++ [json] /\
   historyIndex st' = Z.of_nat (length (history st')) - 1 /\
   historyIndex st' = Z.min (historyIndex st + 1) 9 /\
   historyIndex st' <= 9 /\
   (length (history st') <= 10)%nat) /\
  (forall a b c d : jsstring,
     let abc := mkState (Some c) [a; b; c] 2 false in
     historyIndex (undo abc) = 1 /\
     history (undo abc) = [a; b; c] /\
     handlePathCreated d (undo abc) = mkState (Some d) [a; b; d] 2 false /\
     run [Push b; Push c; Undo; Push d] (initial a) =
       mkState (Some d) [a; b; d] 2 false).
Proof.
  split; [|intros a b c d; cbv; repeat split].
  cbv zeta. rewrite (push_ok json st Hok).
  cbn [history historyIndex].
  pose proof Hok as [Hcap Hcur Hidle _].
  set (kept := firstn (S (Z.to_nat (historyIndex st))) (history st)).
  assert (Hk : length kept = S (Z.to_nat (historyIndex st))).
  { unfold kept. rewrite length_firstn. lia. }
  assert (Hkept : (if historyIndex st =? 9 then tl (history st) else kept)
                  = (if (10 <=? length kept)%nat then tl kept else kept)).
  { destruct (historyIndex st =? 9) eqn:E9.
    - apply Z.eqb_eq in E9. rewrite Hk, E9. cbn [Nat.leb Z.to_nat Pos.to_nat Pos.iter_op Nat.add].
      unfold kept. rewrite E9. rewrite firstn_all2 by (cbn; lia). reflexivity.
    - apply Z.eqb_neq in E9.
      destruct (10 <=? length kept)%nat eqn:E; [apply Nat.leb_le in E; lia | reflexivity]. }
  rewrite Hkept, length_app. cbn [length].
  assert (Hlen : Z.of_nat (length (if (10 <=? length kept)%nat then tl kept else kept))
                 = Z.min (historyIndex st + 1) 9).
  { destruct (10 <=? length kept)%nat eqn:E.
    - apply Nat.leb_le in E. destruct kept; cbn [length tl] in *; lia.
    - apply Nat.leb_gt in E. lia. }
  repeat split; lia.
Qed.

(** The ring [a,b,c] at cursor 2 is well formed, so C2 applies to it. *)
Lemma push_after_undo_discards_future_witness :
  history (handlePathCreated (js "d") (undo (mkState (Some (js "c")) [js "a"; js "b"; js "c"] 2 false)))
  = [js "a"; js "b"; js "d"].
Proof.
  assert (Hok : ring_ok (mkState (Some (js "c")) [js "a"; js "b"; js "c"] 2 false)).
  { constructor; cbn; try lia; auto. split; [discriminate | reflexivity]. }
  destruct (push_after_undo_discards_future _ (js "d") Hok) as [_ H].
  destruct (H (js "a") (js "b") (js "c") (js "d")) as (_ & _ & H3 & _).
  cbv zeta in H3. rewrite H3. reflexivity.
Defined.

(** C3. On a well-formed ring with the cursor above 0, undo moves the
    cursor down by one and shows the entry there, and a redo right after it
    gives back the state before the undo: same entries, same cursor, same
    visible snapshot.  At cursor 0 undo changes nothing, and at the last
    index redo changes nothing. *)
Theorem undo_then_redo_restores (st : State) (Hok : ring_ok st) :
  (0 < historyIndex st ->
     historyIndex (undo st) = historyIndex st - 1 /\
     visible (undo st) = array_get (history st) (historyIndex st - 1) /\
     visible (redo (undo st)) = visible st /\
     historyIndex (redo (undo st)) = historyIndex st /\
     redo (undo st) = st) /\
  (historyIndex st = 0 -> undo st = st) /\
  (historyIndex st = Z.of_nat (length (history st)) - 1 -> redo st = st).
Proof.
  pose proof Hok as [Hcap Hcur Hidle [Hc Hshown]].
  destruct (fabricCanvas st) as [c|] eqn:Ec; [|congruence].
  split; [|split].
  - intros Hpos.
    assert (Hundo : undo st = mkState (array_get (history st) (historyIndex st - 1))
                              (history st) (historyIndex st - 1) false).
    { unfold undo. rewrite Ec.
      destruct (historyIndex st <=? 0) eqn:E; [apply Z.leb_le in E; lia|].
      apply restore_ok; [assumption | lia]. }
    assert (Hredo : redo (undo st) = st).
    { rewrite Hundo. unfold redo. cbn [fabricCanvas history historyIndex].
      destruct (array_get_in_range (history st) (historyIndex st - 1)) as [x Hx]; [lia|].
      rewrite Hx.
      destruct (Z.of_nat (length (history st)) - 1 <=? historyIndex st - 1) eqn:E;
        [apply Z.leb_le in E; lia|].
      unfold restore. cbn [fabricCanvas history historyIndex].
      replace (historyIndex st - 1 + 1) with (historyIndex st) by lia.
      rewrite <- Hshown.
      destruct st; cbn in *; congruence. }
    rewrite Hredo, Hundo. cbn. auto.
  - intros H0. unfold undo. rewrite Ec, H0. reflexivity.
  - intros Hlast. unfold redo. rewrite Ec.
    destruct (Z.of_nat (length (history st)) - 1 <=? historyIndex st) eqn:E;
      [reflexivity | apply Z.leb_gt in E; lia].
Qed.

(** A two-entry ring at cursor 1: undo then redo is the identity on it. *)
Lemma undo_then_redo_restores_witness :
  let st := mkState (Some (js "b")) [js "a"; js "b"] 1 false in
  redo (undo st) = st.
Proof.
  intros st.
  assert (Hok : ring_ok st).
  { constructor; cbn; try lia; auto. split; [discriminate | reflexivity]. }
  destruct (undo_then_redo_restores st Hok) as [H _].
  apply H. cbn. lia.
Defined.

End HistoryRing.

(** ** Strings and arrays *)

Lemma jsstring_eqb_eq (a b : jsstring) : jsstring_eqb a b = true <-> a = b.
Proof.
  revert b. induction a as [|x a IH]; intros [|y b]; cbn; split;
    try congruence; try discriminate.
  - intros H. apply andb_true_iff in H. destruct H as [Hx Hab].
    apply N.eqb_eq in Hx. apply IH in Hab. congruence.
  - intros H. injection H as -> ->. rewrite N.eqb_refl. cbn. apply IH. reflexivity.
Qed.

Lemma jsstring_eqb_refl (a : jsstring) : jsstring_eqb a a = true.
Proof. apply jsstring_eqb_eq. reflexivity. Qed.

Lemma jsstring_eqb_neq (a b : jsstring) : jsstring_eqb a b = false <-> a <> b.
Proof.
  rewrite <- jsstring_eqb_eq. destruct (jsstring_eqb a b); split; congruence.
Qed.

Lemma slice0_firstn {A : Type} (arr : list A) (n : nat) :
  slice0 arr (Z.of_nat n) = firstn n arr.
Proof.
  unfold slice0.
  destruct (Z.of_nat n <? 0) eqn:E; [apply Z.ltb_lt in E; lia|].
  destruct (Nat.le_gt_cases n (length arr)) as [Hle|Hgt].
  - f_equal. lia.
  - replace (Z.to_nat (Z.min (Z.of_nat n) (Z.of_nat (length arr)))) with (length arr) by lia.
    rewrite firstn_all, firstn_all2 by lia. reflexivity.
Qed.

(** ** The prompt store *)

Section PromptStore.
Import TextPromptInput.

Lemma trim_start_nil (s : jsstring) :
  trim_start s = [] <-> forallb is_white_space s = true.
Proof.
  induction s as [|c s IH]; cbn; [tauto|].
  destruct (is_white_space c); cbn; [assumption|]. split; discriminate.
Qed.

(** [!text.trim()] holds exactly for the strings made of white space only
    (the empty one among them). *)
Lemma blank_iff (text : jsstring) :
  is_falsy (trim text) = true <-> forallb is_white_space text = true.
Proof.
  rewrite <- trim_start_nil. unfold trim, trim_end.
  destruct (trim_start text) as [|c s] eqn:E.
  - cbn. tauto.
  - split; [|discriminate]. intros H.
    assert (Hc : is_white_space c = false).
    { destruct text as [|c0 t]; cbn in E; [discriminate|].
      revert E. clear. revert c0.
      induction t as [|c1 t IH]; intros c0; cbn.
      - destruct (is_white_space c0) eqn:W; [discriminate|]. congruence.
      - destruct (is_white_space c0) eqn:W; [|congruence]. apply IH. }
    destruct (trim_start (rev (c :: s))) as [|c2 l] eqn:E2.
    + apply trim_start_nil in E2. cbn [rev] in E2.
      rewrite forallb_app in E2. cbn in E2. rewrite Hc in E2.
      rewrite andb_false_r in E2; discriminate.
    + cbn [rev] in H. destruct (rev l); discriminate.
Qed.

Lemma filter_firstn_filter {A : Type} (f : A -> bool) (n : nat) (l : list A) :
  filter f (firstn n (filter f l)) = firstn n (filter f l).
Proof.
  revert n. induction l as [|x l IH]; intros n; cbn.
  - rewrite firstn_nil. reflexivity.
  - destruct (f x) eqn:E; [|apply IH].
    destruct n; cbn; [reflexivity|]. rewrite E, IH. reflexivity.
Qed.

Lemma In_firstn {A : Type} (x : A) (n : nat) (l : list A) :
  In x (firstn n l) -> In x l.
Proof.
  revert n. induction l as [|y l IH]; intros [|n]; cbn; try tauto.
  intros [H|H]; [left; assumption | right; eapply IH, H].
Qed.

Lemma count_occ_firstn_filter_neq (text : jsstring) (n : nat) (l : list jsstring) :
  count_occ jsstring_eq_dec
    (firstn n (filter (fun h => negb (jsstring_eqb h text)) l)) text = 0%nat.
Proof.
  apply count_occ_not_In. intros Hin. apply In_firstn in Hin.
  apply filter_In in Hin. destruct Hin as [_ H].
  rewrite jsstring_eqb_refl in H. discriminate.
Qed.

(** The new recency list, written with [firstn]. *)
Lemma addToHistory_entries (text : jsstring) (st : State) :
  forallb is_white_space text = false ->
  addToHistory text st =
    let newHistory :=
      text :: firstn 9 (filter (fun h => negb (jsstring_eqb h text)) (history st)) in
    mkState (prompt st) newHistory (saveTimeout st)
      (mkStorage (prompt_draft (localStorage st)) (Some newHistory)) (notified st).
Proof.
  intros Hb. unfold addToHistory.
  destruct (is_falsy (trim text)) eqn:E.
  - apply blank_iff in E. congruence.
  - change 10 with (Z.of_nat 10). rewrite slice0_firstn. reflexivity.
Qed.

(** C6. With the maximum length at its default 500, a change to a value
    of 501 or more code units leaves the whole state as it was: the prompt
    keeps its previous value, nothing is reported and no draft save is
    armed.  A value of at most 500 code units becomes the prompt, is
    reported, and a save of it is the one pending.  The same holds for any
    other maximum length. *)
Theorem handleChange_rejects_overlong (maxLength : Z) (value : jsstring) (st : State) :
  (501 <= jslength value -> handleChange default_maxLength value st = st) /\
  (jslength value <= 500 ->
     prompt (handleChange default_maxLength value st) = value /\
     saveTimeout (handleChange default_maxLength value st) = Some value) /\
  (maxLength < jslength value -> handleChange maxLength value st = st) /\
  (jslength value <= maxLength ->
     handleChange maxLength value st =
       mkState value (history st) (Some value) (localStorage st) (value :: notified st)).
Proof.
  unfold handleChange, default_maxLength.
  split; [|split; [|split]]; intros H.
  - destruct (jslength value <=? 500) eqn:E; [apply Z.leb_le in E; lia | reflexivity].
  - destruct (jslength value <=? 500) eqn:E; [split; reflexivity | apply Z.leb_gt in E; lia].
  - destruct (jslength value <=? maxLength) eqn:E; [apply Z.leb_le in E; lia | reflexivity].
  - destruct (jslength value <=? maxLength) eqn:E; [reflexivity | apply Z.leb_gt in E; lia].
Qed.

(** A 501-unit value is refused and a 500-unit value is accepted. *)
Lemma handleChange_rejects_overlong_witness :
  let st := mkState (js "a cat") [] None (mkStorage None None) [] in
  handleChange default_maxLength (repeat 120%N 501) st = st /\
  prompt (handleChange default_maxLength (repeat 120%N 500) st) = repeat 120%N 500.
Proof.
  intros st.
  destruct (handleChange_rejects_overlong 500 (repeat 120%N 501) st) as (H1 & _).
  destruct (handleChange_rejects_overlong 500 (repeat 120%N 500) st) as (_ & H2 & _).
  split.
  - apply H1. unfold jslength. rewrite repeat_length. lia.
  - apply H2. unfold jslength. rewrite repeat_length. lia.
Defined.

(** C7. Committing a text made of white space only (or empty) changes
    nothing.  Any other text ends up at the front of the recency list,
    followed by the earlier entries different from it, at most 10 entries
    in all, so the text occurs exactly once; the same list is stored.
    Committing the same text again right away changes nothing more; in
    particular two commits of "x" give a list headed by "x" with one "x". *)
Theorem addToHistory_dedup_front (text : jsstring) (st : State) :
  (forallb is_white_space text = true -> addToHistory text st = st) /\
  (forallb is_white_space text = false ->
     history (addToHistory text st) =
       firstn 10 (text :: filter (fun h => negb (jsstring_eqb h text)) (history st)) /\
     hd_error (history (addToHistory text st)) = Some text /\
     count_occ jsstring_eq_dec (history (addToHistory text st)) text = 1%nat /\
     (length (history (addToHistory text st)) <= 10)%nat /\
     prompt_history (localStorage (addToHistory text st)) =
       Some (history (addToHistory text st))) /\
  addToHistory text (addToHistory text st) = addToHistory text st /\
  (let twice := addToHistory (js "x") (addToHistory (js "x") st) in
   hd_error (history twice) = Some (js "x") /\
   count_occ jsstring_eq_dec (history twice) (js "x") = 1%nat).
Proof.
  assert (Hfacts : forall t s, forallb is_white_space t = false ->
            hd_error (history (addToHistory t s)) = Some t /\
            count_occ jsstring_eq_dec (history (addToHistory t s)) t = 1%nat /\
            (length (history (addToHistory t s)) <= 10)%nat).
  { intros t s Hb. rewrite (addToHistory_entries t s Hb). cbn [history hd_error].
    split; [reflexivity|]. split.
    - rewrite count_occ_cons_eq by reflexivity.
      rewrite count_occ_firstn_filter_neq. reflexivity.
    - cbn [length]. rewrite length_firstn. lia. }
  assert (Hidem : forall t s, addToHistory t (addToHistory t s) = addToHistory t s).
  { intros t s. destruct (forallb is_white_space t) eqn:Hb.
    - unfold addToHistory. apply blank_iff in Hb. rewrite Hb. reflexivity.
    - rewrite (addToHistory_entries t s Hb). cbv zeta.
      rewrite (addToHistory_entries t _ Hb). cbv zeta. cbn [history prompt saveTimeout
        localStorage notified prompt_draft filter].
      rewrite jsstring_eqb_refl. cbn [negb].
      rewrite filter_firstn_filter, firstn_firstn. reflexivity. }
  split; [|split; [|split]].
  - intros Hb. unfold addToHistory. apply blank_iff in Hb. rewrite Hb. reflexivity.
  - intros Hb. destruct (Hfacts text st Hb) as (Hhd & Hcount & Hlen).
    repeat split; try assumption.
    + rewrite (addToHistory_entries text st Hb). reflexivity.
    + rewrite (addToHistory_entries text st Hb). reflexivity.
  - apply Hidem.
  - cbv zeta. rewrite Hidem.
    destruct (Hfacts (js "x") st eq_refl) as (Hhd & Hcount & _). auto.
Qed.

(** Two commits of "x" on a list that already holds "x" further down. *)
Lemma addToHistory_dedup_front_witness :
  let st := mkState [] [js "a fox"; js "x"; js "a cat"] None (mkStorage None None) [] in
  history (addToHistory (js "x") st) = [js "x"; js "a fox"; js "a cat"] /\
  addToHistory (js "   ") st = st.
Proof.
  intros st.
  destruct (addToHistory_dedup_front (js "x") st) as (_ & H2 & _).
  destruct (addToHistory_dedup_front (js "   ") st) as (H1 & _).
  split.
  - destruct (H2 eq_refl) as (H & _). rewrite H. reflexivity.
  - apply H1. reflexivity.
Defined.

End PromptStore.

(** ** The parameter panel *)

Section ParameterPanel.
Import ControlParameters.

(** C8. Whatever the current parameters, [updateParam key value] gives
    parameters whose field [key] is [value] and whose other fields are
    those of before; [resetToDefaults] gives sketchStrength 70, style
    'photorealistic', variations 1 and no resolution. *)
Theorem updateParam_frame (k : Key) (v : Value k) (prev : GenerationParams) :
  get k (updateParam k v prev) = v /\
  (forall k' : Key, k' <> k -> get k' (updateParam k v prev) = get k' prev) /\
  resetToDefaults prev = mkParams 70 (js "photorealistic") 1 None /\
  resetToDefaults prev = DEFAULT_PARAMS.
Proof.
  split; [|split; [|split; reflexivity]].
  - destruct k; reflexivity.
  - intros k' Hk. destruct k, k'; try reflexivity; congruence.
Qed.

(** Changing the style of the defaults leaves the strength at 70. *)
Lemma updateParam_frame_witness :
  get KStyle (updateParam KStyle (js "anime") DEFAULT_PARAMS) = js "anime" /\
  get KSketchStrength (updateParam KStyle (js "anime") DEFAULT_PARAMS) = 70.
Proof.
  destruct (updateParam_frame KStyle (js "anime") DEFAULT_PARAMS) as (H1 & H2 & _).
  split; [exact H1|].
  rewrite (H2 KSketchStrength); [reflexivity | discriminate].
Defined.

End ParameterPanel.

(** ** Prompt augmentation *)

Section PromptAugmentation.
Import GenerationService.

Lemma existsb_eqb_false (key : jsstring) (names : list jsstring) :
  ~ In key names -> existsb (jsstring_eqb key) names = false.
Proof.
  intros Hn. destruct (existsb (jsstring_eqb key) names) eqn:E; [|reflexivity].
  apply existsb_exists in E. destruct E as (x & Hx & Heq).
  apply jsstring_eqb_eq in Heq. subst x. contradiction.
Qed.

Lemma own_property_None (o : list (jsstring * jsstring)) (key : jsstring) :
  ~ In key (map fst o) -> own_property o key = None.
Proof.
  induction o as [|[k v] o IH]; cbn; [reflexivity|]. intros Hn.
  destruct (jsstring_eqb k key) eqn:E.
  - apply jsstring_eqb_eq in E. tauto.
  - apply IH. tauto.
Qed.

(** C4, the counterexample: ["__proto__"] is not a key of the suffix
    table, and yet the prompt comes back with text appended. *)
Lemma enhancePrompt_inherited_property :
  ~ In (js "__proto__") (map fst styleSuffixes) /\
  enhancePrompt (js "a red fox") (js "__proto__") = js "a red fox[object Object]" /\
  enhancePrompt (js "a red fox") (js "__proto__") <> js "a red fox".
Proof.
  split; [|split].
  - intros H. cbn in H. repeat (destruct H as [H|H]; [discriminate H|]). exact H.
  - reflexivity.
  - discriminate.
Qed.

(** C4, amended. For each of the 8 declared styles, [enhancePrompt] gives
    the prompt followed by that style's suffix.  For a style string that
    is neither a key of the suffix table nor a property name inherited
    from [Object.prototype], it gives the prompt unchanged; for each of
    the inherited names it gives the prompt followed by a non-empty
    text. *)
Theorem enhancePrompt_total (prompt : jsstring) :
  (enhancePrompt prompt (style_name Photorealistic) = prompt ++
     js ", highly detailed, photorealistic, 8k resolution, cinematic lighting, photography" /\
   enhancePrompt prompt (style_name DigitalArt) = prompt ++
     js ", digital art, trending on artstation, sharp focus, vibrant colors" /\
   enhancePrompt prompt (style_name OilPainting) = prompt ++
     js ", oil painting texture, classic art style, visible brushstrokes" /\
   enhancePrompt prompt (style_name Anime) = prompt ++
     js ", anime style, studio ghibli, vibrant, cel shaded, clean lines" /\
   enhancePrompt prompt (style_name Sketch) = prompt ++
     js ", pencil sketch, charcoal drawing, rough lines, artistic" /\
   enhancePrompt prompt (style_name Watercolor) = prompt ++
     js ", watercolor painting, soft edges, pastel colors, artistic splatter" /\
   enhancePrompt prompt (style_name Cyberpunk) = prompt ++
     js ", cyberpunk, neon lights, futuristic, high tech, dark atmosphere" /\
   enhancePrompt prompt (style_name Fantasy) = prompt ++
     js ", high fantasy, magical, ethereal, dreamlike, intricate details") /\
  (forall style : jsstring,
     ~ In style (map fst styleSuffixes) -> ~ In style inherited_names ->
     enhancePrompt prompt style = prompt) /\
  (forall style : jsstring,
     In style inherited_names ->
     exists text, text <> [] /\ enhancePrompt prompt style = prompt ++ text).
Proof.
  split; [repeat split; reflexivity|]. split.
  - intros style Hkey Hinh. unfold enhancePrompt, get_property.
    rewrite (own_property_None _ _ Hkey).
    unfold inherited_names in Hinh. cbn [In] in Hinh.
    destruct (jsstring_eqb style (js "__proto__")) eqn:E1;
      [apply jsstring_eqb_eq in E1; symmetry in E1; tauto|].
    destruct (jsstring_eqb style (js "constructor")) eqn:E2;
      [apply jsstring_eqb_eq in E2; symmetry in E2; tauto|].
    rewrite existsb_eqb_false by tauto.
    cbn. apply app_nil_r.
  - intros style Hin. unfold inherited_names in Hin. cbn [In Object_prototype_methods] in Hin.
    repeat (destruct Hin as [Hin|Hin];
            [subst style; eexists; split; [|reflexivity]; discriminate|]).
    contradiction.
Qed.

(** A style outside the table and outside [Object.prototype]. *)
Lemma enhancePrompt_total_witness :
  enhancePrompt (js "a red fox") (js "pixel-art") = js "a red fox".
Proof.
  destruct (enhancePrompt_total (js "a red fox")) as (_ & H & _).
  apply H.
  - intros Hin. cbn in Hin. repeat (destruct Hin as [Hin|Hin]; [discriminate Hin|]). exact Hin.
  - intros Hin. cbn in Hin. repeat (destruct Hin as [Hin|Hin]; [discriminate Hin|]). exact Hin.
Defined.

End PromptAugmentation.

(** ** The seed: [Math.floor(Math.random() * 1000000)] *)

Section SeedRange.
Import Number GenerationService.

Lemma iter_pos_nat {A : Type} (f : A -> A) (p : positive) :
  forall x, iter_pos f p x = Nat.iter (Pos.to_nat p) f x.
Proof.
  induction p as [p IH|p IH|]; intros x; cbn [iter_pos].
  - rewrite !IH, Pos2Nat.inj_xI.
    replace (S (2 * Pos.to_nat p))%nat with (Pos.to_nat p + S (Pos.to_nat p))%nat by lia.
    rewrite Nat.iter_add, Nat.iter_succ_r. reflexivity.
  - rewrite !IH, Pos2Nat.inj_xO.
    replace (2 * Pos.to_nat p)%nat with (Pos.to_nat p + Pos.to_nat p)%nat by lia.
    rewrite Nat.iter_add. reflexivity.
  - reflexivity.
Qed.

Lemma shr_1_spec (m : Z) (r s : bool) :
  0 <= m -> shr_1 (Build_shr_record m r s) = Build_shr_record (m / 2) (Z.odd m) (r || s).
Proof.
  intros Hm. destruct m as [|[p|p|]|p]; try lia; cbn [shr_1 Z.odd].
  - reflexivity.
  - f_equal. rewrite Pos2Z.inj_xI. apply Z.div_unique with (r := 1); lia.
  - f_equal. rewrite Pos2Z.inj_xO. apply Z.div_unique with (r := 0); lia.
  - reflexivity.
Qed.

Lemma shr_iter_m (k : nat) (m : Z) (r s : bool) :
  0 <= m ->
  shr_m (Nat.iter k shr_1 (Build_shr_record m r s)) = m / 2 ^ Z.of_nat k.
Proof.
  intros Hm. induction k as [|k IH].
  - cbn. rewrite Z.div_1_r. reflexivity.
  - rewrite Nat.iter_succ.
    destruct (Nat.iter k shr_1 (Build_shr_record m r s)) as [m' r' s'] eqn:E.
    cbn [shr_m] in IH. subst m'.
    rewrite shr_1_spec by (apply Z.div_pos; lia). cbn [shr_m].
    rewrite Nat2Z.inj_succ, Z.pow_succ_r by lia.
    rewrite Z.div_div by lia. f_equal; lia.
Qed.


Lemma round_nearest_even_bounds (m : Z) (r s : bool) :
  let m1 := round_nearest_even m (loc_of_shr_record (Build_shr_record m r s)) in
  m <= m1 <= m + (if r then 1 else 0).
Proof.
  destruct r, s; cbn; try lia. destruct (Z.even m); lia.
Qed.

Lemma round_after_shr (k : nat) (M : Z) :
  0 <= M ->
  let mrs := Nat.iter (S k) shr_1 (Build_shr_record M false false) in
  let m1 := round_nearest_even (shr_m mrs) (loc_of_shr_record mrs) in
  0 <= m1 /\ m1 <= M / 2 ^ Z.of_nat (S k) + 1 /\
  2 * (m1 * 2 ^ Z.of_nat (S k)) <= 2 * M + 2 ^ Z.of_nat (S k).
Proof.
  intros HM. cbv zeta. rewrite Nat.iter_succ.
  pose proof (shr_iter_m k M false false HM) as Hk.
  destruct (Nat.iter k shr_1 (Build_shr_record M false false)) as [m' r' s'].
  cbn [shr_m] in Hk. subst m'.
  set (q := M / 2 ^ Z.of_nat k).
  assert (Hq : 0 <= q) by (apply Z.div_pos; lia).
  rewrite shr_1_spec by assumption. cbn [shr_m].
  rewrite Nat2Z.inj_succ, Z.pow_succ_r by lia.
  set (P := 2 ^ Z.of_nat k) in *.
  assert (HP : 0 < P) by (apply Z.pow_pos_nonneg; lia).
  assert (Hdd : M / (2 * P) = q / 2).
  { unfold q. rewrite Z.div_div by lia. f_equal; lia. }
  rewrite Hdd.
  pose proof (Z.div_mod M P ltac:(lia)) as HMq. fold q in HMq.
  pose proof (Z.mod_pos_bound M P HP) as HMr.
  pose proof (Z.div_mod q 2 ltac:(lia)) as Hq2.
  rewrite Zmod_odd in Hq2.
  assert (Hh : 0 <= q / 2) by (apply Z.div_pos; lia).
  pose proof (round_nearest_even_bounds (q / 2) (Z.odd q) (r' || s')) as Hb.
  cbv zeta in Hb.
  set (m1 := round_nearest_even (q / 2)
               (loc_of_shr_record (Build_shr_record (q / 2) (Z.odd q) (r' || s')))) in *.
  split; [lia|]. split; [destruct (Z.odd q); lia|].
  assert (Hm1 : m1 * (2 * P) <= M + P).
  { destruct (Z.odd q).
    - assert (m1 * (2 * P) <= (q / 2 + 1) * (2 * P)) by (apply Z.mul_le_mono_nonneg_r; lia).
      replace ((q / 2 + 1) * (2 * P)) with ((2 * (q / 2) + 1) * P + P) in H by ring.
      rewrite <- Hq2 in H. lia.
    - assert (Hm1 : m1 = q / 2) by lia.
      rewrite Hm1.
      replace (q / 2 * (2 * P)) with ((2 * (q / 2) + 0) * P) by ring.
      rewrite <- Hq2. lia. }
  lia.
Qed.

Lemma trunc_after_shr (k : nat) (m : Z) :
  0 <= m ->
  let mrs := Nat.iter k shr_1 (Build_shr_record m false false) in
  0 <= shr_m mrs /\ shr_m mrs * 2 ^ Z.of_nat k <= m.
Proof.
  intros Hm. cbv zeta. rewrite shr_iter_m by assumption.
  assert (HP : 0 < 2 ^ Z.of_nat k) by (apply Z.pow_pos_nonneg; lia).
  split; [apply Z.div_pos; lia|].
  rewrite Z.mul_comm. apply Z.mul_div_le. assumption.
Qed.

Lemma digits2_pos_bounds (p : positive) :
  2 ^ (Z.pos (digits2_pos p) - 1) <= Z.pos p < 2 ^ Z.pos (digits2_pos p).
Proof.
  induction p as [p IH|p IH|]; cbn [digits2_pos].
  - rewrite Pos2Z.inj_succ, Pos2Z.inj_xI.
    replace (Z.succ (Z.pos (digits2_pos p)) - 1) with (Z.succ (Z.pos (digits2_pos p) - 1)) by lia.
    rewrite !Z.pow_succ_r by lia.
    generalize dependent (2 ^ (Z.pos (digits2_pos p) - 1)).
    generalize dependent (2 ^ Z.pos (digits2_pos p)). intros; lia.
  - rewrite Pos2Z.inj_succ. change (Z.pos p~0) with (2 * Z.pos p).
    replace (Z.succ (Z.pos (digits2_pos p)) - 1) with (Z.succ (Z.pos (digits2_pos p) - 1)) by lia.
    rewrite !Z.pow_succ_r by lia.
    generalize dependent (2 ^ (Z.pos (digits2_pos p) - 1)).
    generalize dependent (2 ^ Z.pos (digits2_pos p)). intros; lia.
  - cbn. lia.
Qed.

Lemma shr_fexp_exact (m e : Z) :
  0 <= m ->
  let '(mrs, e') := shr_fexp prec emax m e loc_Exact in
  0 <= shr_m mrs /\ e <= e' /\ shr_m mrs * 2 ^ (e' - e) <= m.
Proof.
  intros Hm. unfold shr_fexp, shr. cbn [shr_record_of_loc].
  destruct (fexp prec emax (Zdigits2 m + e) - e) as [|p|p] eqn:En.
  - cbn [shr_m]. rewrite Z.sub_diag. cbn. lia.
  - rewrite iter_pos_nat.
    pose proof (trunc_after_shr (Pos.to_nat p) m Hm) as H. cbv zeta in H.
    rewrite positive_nat_Z in H.
    replace (e + Z.pos p - e) with (Z.pos p) by lia.
    split; [apply H|]. split; [lia | apply H].
  - cbn [shr_m]. rewrite Z.sub_diag. cbn. lia.
Qed.

Lemma shr_fexp_round (M : positive) (E : Z) :
  let '(mrs, e') := shr_fexp prec emax (Z.pos M) E loc_Exact in
  let m1 := round_nearest_even (shr_m mrs) (loc_of_shr_record mrs) in
  0 <= m1 /\ E <= e' /\
  (m1 * 2 ^ (e' - E) * 2 ^ 53 <= Z.pos M * (2 ^ 53 + 1) \/
   (e' = -1074 /\ m1 <= 2 ^ 52)).
Proof.
  unfold shr_fexp, shr. cbn [shr_record_of_loc Zdigits2].
  pose proof (digits2_pos_bounds M) as Hd.
  set (d := Z.pos (digits2_pos M)) in *.
  assert (Hd1 : 1 <= d) by (unfold d; lia).
  unfold fexp, emin, prec, emax.
  destruct (Z.max (d + E - 53) (3 - 1024 - 53) - (E)) as [|p|p] eqn:En.
  - cbn [shr_m loc_of_shr_record round_nearest_even]. rewrite Z.sub_diag.
    split; [lia|]. split; [lia|]. left. cbn. lia.
  - rewrite iter_pos_nat.
    destruct (Pos2Nat.is_succ p) as [k Hk].
    pose proof (round_after_shr k (Z.pos M) ltac:(lia)) as H. cbv zeta in H.
    rewrite <- Hk in H. rewrite positive_nat_Z in H.
    set (m1 := round_nearest_even _ _) in *.
    destruct H as (H0 & H1 & H2).
    replace (E + Z.pos p - E) with (Z.pos p) by lia.
    split; [assumption|]. split; [lia|].
    assert (HP : 0 < 2 ^ Z.pos p) by (apply Z.pow_pos_nonneg; lia).
    destruct (Z_le_gt_dec (3 - 1024 - 53) (d + E - 53)) as [Hn|Hs].
    + left.
      assert (Hp : Z.pos p = d - 53) by lia.
      assert (Hpow : 2 ^ Z.pos p * 2 ^ 52 = 2 ^ (d - 1)).
      { rewrite <- Z.pow_add_r by lia. f_equal; lia. }
      set (P := 2 ^ Z.pos p) in *.
      assert (HPM : P * 2 ^ 52 <= Z.pos M) by lia.
      change (2 ^ 53) with 9007199254740992.
      change (2 ^ 52) with 4503599627370496 in HPM.
      lia.
    + right. split; [lia|].
      assert (Hp : d <= Z.pos p + 52) by lia.
      assert (Hlt : Z.pos M < 2 ^ Z.pos p * 2 ^ 52).
      { rewrite <- Z.pow_add_r by lia. eapply Z.lt_le_trans; [apply Hd|].
        apply Z.pow_le_mono_r; lia. }
      assert (Hdiv : Z.pos M / 2 ^ Z.pos p < 2 ^ 52).
      { apply Z.div_lt_upper_bound; lia. }
      lia.
  - cbn [shr_m loc_of_shr_record round_nearest_even]. rewrite Z.sub_diag.
    split; [lia|]. split; [lia|]. left. cbn. lia.
Qed.

Lemma value_below (m e E : Z) :
  0 < m -> E <= e -> E <= 0 ->
  m * 2 ^ (e - E) < 1000000 * 2 ^ (- E) ->
  0 <= Z.shiftl m e < 1000000 /\ e <= 971.
Proof.
  intros Hm HEe HE Hlt.
  assert (HP : 0 < 2 ^ (- E)) by (apply Z.pow_pos_nonneg; lia).
  assert (He : e < 20).
  { destruct (Z_lt_ge_dec e 20) as [|Hge]; [assumption|exfalso].
    assert (H20 : 2 ^ 20 * 2 ^ (- E) <= 2 ^ (e - E)).
    { rewrite <- Z.pow_add_r by lia. apply Z.pow_le_mono_r; lia. }
    change (2 ^ 20) with 1048576 in H20.
    assert (H1 : 1 * 2 ^ (e - E) <= m * 2 ^ (e - E)).
    { apply Z.mul_le_mono_nonneg_r; [apply Z.pow_nonneg|]; lia. }
    generalize dependent (2 ^ (e - E)). generalize dependent (2 ^ (- E)).
    intros; lia. }
  split; [|lia].
  destruct (Z_le_gt_dec 0 e) as [Hpos|Hneg].
  - rewrite Z.shiftl_mul_pow2 by assumption.
    assert (Hsplit : 2 ^ (e - E) = 2 ^ e * 2 ^ (- E)).
    { rewrite <- Z.pow_add_r by lia. f_equal; lia. }
    rewrite Hsplit, Z.mul_assoc in Hlt.
    apply Z.mul_lt_mono_pos_r in Hlt; [|assumption].
    split; [|assumption]. apply Z.mul_nonneg_nonneg; [|apply Z.pow_nonneg]; lia.
  - rewrite Z.shiftl_div_pow2 by lia.
    assert (Hsplit : 2 ^ (- E) = 2 ^ (- e) * 2 ^ (e - E)).
    { rewrite <- Z.pow_add_r by lia. f_equal; lia. }
    rewrite Hsplit, Z.mul_assoc in Hlt.
    assert (H1 : 0 < 2 ^ (- e)) by (apply Z.pow_pos_nonneg; lia).
    assert (H2 : 0 < 2 ^ (e - E)) by (apply Z.pow_pos_nonneg; lia).
    apply Z.mul_lt_mono_pos_r in Hlt; [|assumption].
    split; [apply Z.div_pos; lia|].
    apply Z.div_lt_upper_bound; [assumption|]. rewrite Z.mul_comm. assumption.
Qed.

Lemma unit_interval_finite (m : positive) (e : Z) :
  in_unit_interval (S754_finite false m e) = true ->
  -1074 <= e <= -53 /\ Z.pos m < 2 ^ 53.
Proof.
  unfold in_unit_interval. intros H. apply andb_true_iff in H. destruct H as [Hv Hlt].
  cbn [valid_binary] in Hv. unfold bounded, canonical_mantissa in Hv.
  apply andb_true_iff in Hv. destruct Hv as [Hc _]. apply Z.eqb_eq in Hc.
  unfold fexp, emin, prec, emax in Hc.
  pose proof (digits2_pos_bounds m) as Hd.
  set (d := Z.pos (digits2_pos m)) in *.
  change (of_Z 1) with (S754_finite false 4503599627370496 (-52)) in Hlt.
  unfold SFltb, SFcompare in Hlt.
  destruct (e ?= -52) eqn:Ecmp; try discriminate.
  - apply Z.compare_eq in Ecmp. subst e.
    assert (Hd53 : d = 53) by lia.
    rewrite Hd53 in Hd. change (2 ^ (53 - 1)) with 4503599627370496 in Hd.
    destruct (Pos.compare_cont Eq m 4503599627370496) eqn:Ec; try discriminate.
    assert (Ec' : Z.pos m < 4503599627370496) by exact Ec.
    destruct Hd as [Hd _]. exfalso. clear - Hd Ec'. lia.
  - assert (He : e < -52) by exact Ecmp.
    assert (Hd53 : d <= 53) by lia.
    split; [lia|].
    eapply Z.lt_le_trans; [apply Hd|]. apply Z.pow_le_mono_r; lia.
Qed.

Lemma mul_million_range (x : number) :
  in_unit_interval x = true ->
  (mul x (of_Z 1000000) = S754_zero false \/
   exists m e, mul x (of_Z 1000000) = S754_finite false m e) /\
  0 <= floor (mul x (of_Z 1000000)) < 1000000.
Proof.
  intros Hx.
  change (of_Z 1000000) with (S754_finite false 8589934592000000 (-33)).
  destruct x as [s|s| |s m e].
  - destruct s; [discriminate|]. split; [left; reflexivity | cbn; lia].
  - unfold in_unit_interval in Hx. rewrite andb_false_r in Hx. discriminate.
  - discriminate.
  - destruct s; [unfold in_unit_interval in Hx; rewrite andb_false_r in Hx; discriminate|].
    apply unit_interval_finite in Hx. destruct Hx as [He Hm].
    change (2 ^ 53) with 9007199254740992 in Hm.
    unfold mul, SFmul. cbn [xorb]. unfold binary_round_aux.
    pose proof (shr_fexp_round (m * 8589934592000000) (e + -33)) as H1.
    fold prec emax.
    destruct (shr_fexp prec emax (Z.pos (m * 8589934592000000)) (e + -33) loc_Exact)
      as [mrs1 e1].
    cbv zeta in H1. destruct H1 as (Hm1 & He1 & Hval1).
    pose proof (shr_fexp_exact _ e1 Hm1) as H2.
    destruct (shr_fexp prec emax
                (round_nearest_even (shr_m mrs1) (loc_of_shr_record mrs1)) e1 loc_Exact)
      as [mrs2 e2].
    destruct H2 as (Hm2 & He2 & Hval2).
    set (m1 := round_nearest_even (shr_m mrs1) (loc_of_shr_record mrs1)) in *.
    destruct (shr_m mrs2) as [|m2|m2] eqn:Em2; [cbn; split; [left; reflexivity | lia] | | lia].
    assert (Hbelow : 0 <= Z.shiftl (Z.pos m2) e2 < 1000000 /\ e2 <= 971).
    { destruct Hval1 as [Hn|[Hs1 Hs2]].
      - apply (value_below (Z.pos m2) e2 (e + -33)); try lia.
        assert (Hsplit : 2 ^ (e2 - (e + -33)) = 2 ^ (e2 - e1) * 2 ^ (e1 - (e + -33))).
        { rewrite <- Z.pow_add_r by lia. f_equal; lia. }
        rewrite Hsplit.
        assert (HQ : 0 < 2 ^ (e1 - (e + -33))) by (apply Z.pow_pos_nonneg; lia).
        set (Q := 2 ^ (e1 - (e + -33))) in *.
        set (R := 2 ^ (e2 - e1)) in *.
        assert (Hstep : Z.pos m2 * R * Q <= m1 * Q) by (apply Z.mul_le_mono_nonneg_r; lia).
        change (2 ^ 53) with 9007199254740992 in Hn.
        rewrite Pos2Z.inj_mul in Hn.
        assert (Hpow : 2 ^ 86 <= 2 ^ (- (e + -33))) by (apply Z.pow_le_mono_r; lia).
        change (2 ^ 86) with 77371252455336267181195264 in Hpow.
        set (T := 2 ^ (- (e + -33))) in *.
        lia.
      - apply (value_below (Z.pos m2) e2 (-1074)); try lia.
        subst e1.
        replace (e2 - -1074) with (e2 - -1074 + 0) by lia.
        replace (e2 - -1074 + 0) with (e2 - -1074) by lia.
        change (2 ^ 52) with 4503599627370496 in Hs2.
        assert (4503599627370496 < 1000000 * 2 ^ (- -1074)) by (vm_compute; reflexivity).
        lia. }
    destruct Hbelow as [Hfl He971].
    unfold emax, prec. change (1024 - 53) with 971.
    destruct (e2 <=? 971) eqn:E971; [|apply Z.leb_gt in E971; lia].
    cbn [floor]. split; [right; eauto | exact Hfl].
Qed.

(** X1. Whatever [Math.random()] returns (a Number of positive sign, at
    least 0 and below 1), the product with 1000000 is zero or a finite
    positive Number, never NaN or an infinity, and the seed, its floor, is
    an integer from 0 to 999999: the rounding of the product cannot reach
    1000000. *)
Theorem draw_seed_range (random : RandomNumber) :
  (mul (random_value random) (of_Z 1000000) = S754_zero false \/
   exists m e, mul (random_value random) (of_Z 1000000) = S754_finite false m e) /\
  0 <= draw_seed random < 1000000.
Proof.
  unfold draw_seed. apply mul_million_range, random_spec.
Qed.


End SeedRange.

(** ** [encodeURIComponent] *)

Section Encoding.
Import GenerationService.

(** Induction over a string read one code unit or one pair at a time. *)
Lemma jsstring_pair_ind (P : jsstring -> Prop) :
  P [] ->
  (forall c rest, P rest -> (forall d rest', rest = d :: rest' -> P rest') -> P (c :: rest)) ->
  forall s, P s.
Proof.
  intros Hnil Hcons s.
  enough (H : P s /\ (forall d rest', s = d :: rest' -> P rest')) by apply H.
  induction s as [|c s [IH1 IH2]].
  - split; [assumption | discriminate].
  - split; [apply Hcons; assumption|].
    intros d rest' E. injection E as _ <-. assumption.
Qed.

Lemma uri_unescaped_ascii (c : N) : uri_unescaped c = true -> (c < 127)%N.
Proof.
  unfold uri_unescaped. intros H.
  repeat (apply orb_true_iff in H; destruct H as [H|H]);
    try (apply andb_true_iff in H; destruct H as [H1 H2];
         apply N.leb_le in H1, H2; lia);
    apply N.eqb_eq in H; lia.
Qed.

Lemma uri_unescaped_not_surrogate (c : N) :
  uri_unescaped c = true -> is_low_surrogate c = false /\ is_high_surrogate c = false.
Proof.
  intros H. apply uri_unescaped_ascii in H.
  unfold is_low_surrogate, is_high_surrogate.
  split; apply andb_false_iff; left; apply N.leb_gt; lia.
Qed.

Lemma encodeURIComponent_None_iff (s : jsstring) :
  encodeURIComponent s = None <-> well_formed s = false.
Proof.
  induction s as [|c rest IH1 IH2] using jsstring_pair_ind.
  - cbn. split; discriminate.
  - cbn [encodeURIComponent well_formed].
    destruct (uri_unescaped c) eqn:Eu.
    + destruct (uri_unescaped_not_surrogate c Eu) as [-> ->].
      rewrite <- IH1. destruct (encodeURIComponent rest); cbn; split; intros E; (discriminate E || reflexivity).
    + destruct (is_low_surrogate c); [tauto|].
      destruct (is_high_surrogate c).
      * destruct rest as [|d rest']; [tauto|].
        destruct (is_low_surrogate d); cbn [andb]; [|tauto].
        rewrite <- (IH2 d rest' eq_refl).
        destruct (encodeURIComponent rest'); cbn; split; intros E; (discriminate E || reflexivity).
      * rewrite <- IH1. destruct (encodeURIComponent rest); cbn; split; intros E; (discriminate E || reflexivity).
Qed.

Lemma encodeURIComponent_Some (s : jsstring) :
  well_formed s = true -> exists e, encodeURIComponent s = Some e.
Proof.
  intros W. destruct (encodeURIComponent s) as [e|] eqn:E; [eauto|].
  apply encodeURIComponent_None_iff in E. congruence.
Qed.

(** X2. [encodeURIComponent] returns a string exactly when its argument
    is well formed, and throws [URIError] exactly when the argument holds
    a surrogate code unit that is not half of a pair. *)
Theorem encodeURIComponent_defined (s : jsstring) :
  (well_formed s = true <-> exists e, encodeURIComponent s = Some e) /\
  (well_formed s = false <-> encodeURIComponent s = None).
Proof.
  pose proof (encodeURIComponent_None_iff s) as [H1 H2]. split.
  - split; [apply encodeURIComponent_Some|].
    intros [e He]. destruct (well_formed s); [reflexivity|].
    rewrite (H2 eq_refl) in He. discriminate.
  - split; assumption.
Qed.

End Encoding.

(** ** The request URL read back *)

Section RequestURL.
Import GenerationService URL.

Lemma split_first_app (sep : N) (a b : jsstring) :
  forallb (fun c => negb (c =? sep)%N) a = true ->
  split_first sep (a ++ b) =
    (a ++ fst (split_first sep b), snd (split_first sep b)).
Proof.
  induction a as [|c a IH]; cbn [forallb app split_first]; intros H.
  - destruct (split_first sep b); reflexivity.
  - apply andb_true_iff in H. destruct H as [Hc Ha].
    destruct (c =? sep)%N; [discriminate|].
    rewrite (IH Ha). reflexivity.
Qed.

Lemma split_app_sep (sep : N) (a b : jsstring) :
  forallb (fun c => negb (c =? sep)%N) a = true ->
  split sep (a ++ sep :: b) = (a, fst (split sep b) :: snd (split sep b)).
Proof.
  induction a as [|c a IH]; cbn [forallb app split]; intros H.
  - rewrite N.eqb_refl. destruct (split sep b); reflexivity.
  - apply andb_true_iff in H. destruct H as [Hc Ha].
    rewrite (IH Ha). destruct (c =? sep)%N; [discriminate | reflexivity].
Qed.

Lemma pieces_app_sep (sep : N) (a b : jsstring) :
  forallb (fun c => negb (c =? sep)%N) a = true ->
  pieces sep (a ++ sep :: b) = a :: pieces sep b.
Proof.
  intros H. unfold pieces. rewrite (split_app_sep sep a b H).
  destruct (split sep b); reflexivity.
Qed.

Lemma pieces_no_sep (sep : N) (a : jsstring) :
  forallb (fun c => negb (c =? sep)%N) a = true -> pieces sep a = [a].
Proof.
  unfold pieces. induction a as [|c a IH]; cbn [forallb split]; intros H; [reflexivity|].
  apply andb_true_iff in H. destruct H as [Hc Ha]. specialize (IH Ha).
  destruct (split sep a) as [p o]. injection IH as -> ->.
  destruct (c =? sep)%N; [discriminate | reflexivity].
Qed.

Lemma split_others_nonempty (sep : N) (a b : jsstring) :
  snd (split sep (a ++ sep :: b)) <> [].
Proof.
  induction a as [|c a IH]; cbn [app split].
  - rewrite N.eqb_refl. destruct (split sep b). discriminate.
  - destruct (split sep (a ++ sep :: b)) as [p o]. cbn [snd] in IH.
    destruct (c =? sep)%N; [discriminate | exact IH].
Qed.

(** The last piece is what follows the last separator. *)
Lemma last_pieces_after_sep (sep : N) (a b : jsstring) :
  forallb (fun c => negb (c =? sep)%N) b = true ->
  last (pieces sep (a ++ sep :: b)) [] = b.
Proof.
  intros Hb. induction a as [|c a IH].
  - change ([] ++ sep :: b) with ([] ++ sep :: b). rewrite (pieces_app_sep sep [] b eq_refl).
    rewrite (pieces_no_sep sep b Hb). reflexivity.
  - pose proof (split_others_nonempty sep a b) as Hne.
    unfold pieces in *. cbn [app split].
    destruct (split sep (a ++ sep :: b)) as [p o]. cbn [snd] in Hne.
    destruct o as [|x o]; [contradiction|].
    destruct (c =? sep)%N; exact IH.
Qed.

(** Neither [/] nor [?]. *)
Lemma uri_unescaped_not_separator (c : N) :
  uri_unescaped c = true -> negb (c =? 47)%N && negb (c =? 63)%N = true.
Proof.
  intros H.
  destruct (c =? 47)%N eqn:E1; [apply N.eqb_eq in E1; subst c; discriminate H|].
  destruct (c =? 63)%N eqn:E2; [apply N.eqb_eq in E2; subst c; discriminate H|].
  reflexivity.
Qed.

Lemma hex_digit_not_separator (n : N) :
  negb (hex_digit n =? 47)%N && negb (hex_digit n =? 63)%N = true.
Proof.
  unfold hex_digit.
  destruct (n <? 10)%N eqn:E; [apply N.ltb_lt in E | apply N.ltb_ge in E];
    apply andb_true_iff; split; apply negb_true_iff, N.eqb_neq; lia.
Qed.

Lemma percent_octets_not_separator (bs : list N) :
  forallb (fun c => negb (c =? 47)%N && negb (c =? 63)%N) (percent_octets bs) = true.
Proof.
  induction bs as [|b bs IH]; [reflexivity|].
  unfold percent_octets in *. cbn [flat_map percent_octet app forallb].
  rewrite !hex_digit_not_separator, IH. reflexivity.
Qed.

(** [encodeURIComponent] escapes [/] and [?]: its result has neither. *)
Lemma encodeURIComponent_not_separator (s : jsstring) :
  forall e, encodeURIComponent s = Some e ->
  forallb (fun c => negb (c =? 47)%N && negb (c =? 63)%N) e = true.
Proof.
  induction s as [|c rest IH1 IH2] using jsstring_pair_ind; intros e He.
  - injection He as <-. reflexivity.
  - cbn [encodeURIComponent] in He.
    destruct (uri_unescaped c) eqn:Eu.
    + destruct (encodeURIComponent rest) as [e'|]; [|discriminate].
      injection He as <-. cbn [forallb].
      rewrite (uri_unescaped_not_separator c Eu), (IH1 e' eq_refl). reflexivity.
    + destruct (is_low_surrogate c); [discriminate|].
      destruct (is_high_surrogate c).
      * destruct rest as [|d rest']; [discriminate|].
        destruct (is_low_surrogate d); [|discriminate].
        destruct (encodeURIComponent rest') as [e'|] eqn:E'; [|discriminate].
        injection He as <-. rewrite forallb_app, percent_octets_not_separator.
        exact (IH2 d rest' eq_refl e' E').
      * destruct (encodeURIComponent rest) as [e'|]; [|discriminate].
        injection He as <-. rewrite forallb_app, percent_octets_not_separator.
        exact (IH1 e' eq_refl).
Qed.

Lemma forallb_weaken {A : Type} (f g : A -> bool) (l : list A) :
  (forall x, f x = true -> g x = true) -> forallb f l = true -> forallb g l = true.
Proof.
  intros Hfg. induction l as [|x l IH]; cbn; [reflexivity|].
  intros H. apply andb_true_iff in H. destruct H as [Hx Hl].
  rewrite (Hfg x Hx), (IH Hl). reflexivity.
Qed.

(** A decimal numeral is made of digits and at most a leading minus. *)
Lemma toString_digits (n : Z) :
  forallb (fun c => (c =? 45) || (48 <=? c) && (c <=? 57))%N (Number.toString n) = true.
Proof.
  unfold Number.toString.
  assert (Hu : forall d, forallb (fun c => (c =? 45) || (48 <=? c) && (c <=? 57))%N
                           (js (NilEmpty.string_of_uint d)) = true).
  { induction d; cbn; try assumption; reflexivity. }
  destruct (Z.to_int n) as [d|d]; cbn; [apply Hu|].
  exact (Hu d).
Qed.

Lemma toString_not_amp (n : Z) :
  forallb (fun c => negb (c =? 38)%N) (Number.toString n) = true.
Proof.
  apply (forallb_weaken (fun c => (c =? 45) || (48 <=? c) && (c <=? 57))%N);
    [|apply toString_digits].
  intros c H.
  destruct (c =? 38)%N eqn:E; [apply N.eqb_eq in E; subst c; discriminate H | reflexivity].
Qed.

Lemma js_inj (a b : string) : js a = js b -> a = b.
Proof.
  revert b. induction a as [|x a IH]; intros [|y b]; cbn; try discriminate; [reflexivity|].
  intros H. injection H as Hxy Hab.
  rewrite <- (ascii_N_embedding x), <- (ascii_N_embedding y), Hxy.
  f_equal. apply IH, Hab.
Qed.

(** Different integers have different numerals. *)
Lemma toString_inj (n m : Z) : Number.toString n = Number.toString m -> n = m.
Proof.
  unfold Number.toString. intros H. apply js_inj in H.
  assert (Hi : Z.to_int n = Z.to_int m).
  { pose proof (NilEmpty.isi (Z.to_int n)) as Hn.
    pose proof (NilEmpty.isi (Z.to_int m)) as Hm.
    rewrite H in Hn. congruence. }
  rewrite <- (DecimalZ.of_to n), <- (DecimalZ.of_to m), Hi. reflexivity.
Qed.

(** The URL with its separators set apart. *)
Lemma request_url_shape (e : jsstring) (seed : Z) :
  request_url e 512 512 seed =
    (js "https://image.pollinations.ai/prompt" ++ 47%N :: e) ++ 63%N ::
    js "width=512" ++ 38%N :: js "height=512" ++ 38%N ::
    (js "seed=" ++ Number.toString seed) ++ 38%N ::
    js "nologo=true" ++ 38%N :: js "model=flux".
Proof.
  unfold request_url. change (Number.toString 512) with (js "512").
  rewrite <- !app_assoc. reflexivity.
Qed.

Lemma request_url_parts (s e : jsstring) (seed : Z)
    (He : encodeURIComponent s = Some e) :
  last_path_segment (request_url e 512 512 seed) = e /\
  query_fields (request_url e 512 512 seed) =
    [ (js "width", Some (js "512")); (js "height", Some (js "512"));
      (js "seed", Some (Number.toString seed));
      (js "nologo", Some (js "true")); (js "model", Some (js "flux")) ] /\
  query_get (js "seed") (request_url e 512 512 seed) = Some (Number.toString seed) /\
  query_get (js "model") (request_url e 512 512 seed) = Some (js "flux").
Proof.
  pose proof (encodeURIComponent_not_separator s e He) as Hsep.
  assert (H47 : forallb (fun c => negb (c =? 47)%N) e = true).
  { apply (forallb_weaken _ _ _ (fun c H => proj1 (proj1 (andb_true_iff _ _) H)) Hsep). }
  assert (H63 : forallb (fun c => negb (c =? 63)%N) e = true).
  { apply (forallb_weaken _ _ _ (fun c H => proj2 (proj1 (andb_true_iff _ _) H)) Hsep). }
  assert (Hsplit : split_first 63 (request_url e 512 512 seed) =
            (js "https://image.pollinations.ai/prompt" ++ 47%N :: e,
             Some (js "width=512" ++ 38%N :: js "height=512" ++ 38%N ::
                   (js "seed=" ++ Number.toString seed) ++ 38%N ::
                   js "nologo=true" ++ 38%N :: js "model=flux"))).
  { rewrite request_url_shape, split_first_app.
    - cbn [split_first]. rewrite N.eqb_refl. cbn [fst snd]. rewrite app_nil_r. reflexivity.
    - rewrite forallb_app. cbn [forallb]. rewrite H63. reflexivity. }
  assert (Hfields : query_fields (request_url e 512 512 seed) =
    [ (js "width", Some (js "512")); (js "height", Some (js "512"));
      (js "seed", Some (Number.toString seed));
      (js "nologo", Some (js "true")); (js "model", Some (js "flux")) ]).
  { unfold query_fields. rewrite Hsplit. cbn [snd].
    rewrite (pieces_app_sep 38 (js "width=512")) by reflexivity.
    rewrite (pieces_app_sep 38 (js "height=512")) by reflexivity.
    rewrite (pieces_app_sep 38 (js "seed=" ++ Number.toString seed))
      by (rewrite forallb_app, toString_not_amp; reflexivity).
    reflexivity. }
  split; [|split; [exact Hfields|split]].
  - unfold last_path_segment. rewrite Hsplit. cbn [fst].
    apply last_pieces_after_sep, H47.
  - unfold query_get. rewrite Hfields. reflexivity.
  - unfold query_get. rewrite Hfields. reflexivity.
Qed.



End RequestURL.

(** ** [generateImage] *)

Section GenerateImage.
Import GenerationService URL.



(** X5. Two calls with the same prompt and style, whatever their
    sketches, other parameters and random draws, settle alike, and when
    fulfilled their responses are equal exactly when the two seeds are
    equal: with different seeds the URLs differ, and they differ in the
    seed field only. *)
Theorem generateImage_two_runs (r1 r2 : Number.RandomNumber)
    (prompt sketch1 sketch2 : jsstring) (p1 p2 : GenerationParams)
    (Hstyle : style p1 = style p2) :
  (generateImage r1 prompt sketch1 p1 = Rejected URIError <->
   generateImage r2 prompt sketch2 p2 = Rejected URIError) /\
  (forall a b,
     generateImage r1 prompt sketch1 p1 = Fulfilled a ->
     generateImage r2 prompt sketch2 p2 = Fulfilled b ->
     (a = b <-> draw_seed r1 = draw_seed r2) /\
     (imageUrl a = imageUrl b <-> draw_seed r1 = draw_seed r2) /\
     success a = success b /\
     option_map generationTime (metadata a) = option_map generationTime (metadata b) /\
     option_map model (metadata a) = option_map model (metadata b) /\
     option_map last_path_segment (imageUrl a) = option_map last_path_segment (imageUrl b) /\
     (forall name, name <> js "seed" ->
        option_map (query_get name) (imageUrl a) = option_map (query_get name) (imageUrl b))).
Proof.
  unfold generateImage. rewrite <- Hstyle.
  destruct (encodeURIComponent (enhancePrompt prompt (style p1))) as [e|] eqn:He.
  - split; [split; discriminate|].
    intros a b Ha Hb. injection Ha as <-. injection Hb as <-.
    cbn [imageUrl success metadata option_map generationTime model].
    destruct (request_url_parts _ e (draw_seed r1) He) as (Hp1 & Hf1 & _).
    destruct (request_url_parts _ e (draw_seed r2) He) as (Hp2 & Hf2 & _).
    assert (Hurl : request_url e 512 512 (draw_seed r1) = request_url e 512 512 (draw_seed r2)
                   -> draw_seed r1 = draw_seed r2).
    { intros E. rewrite <- E in Hf2. rewrite Hf1 in Hf2.
      injection Hf2 as Hs. apply toString_inj, Hs. }
    repeat split; try reflexivity.
    + intros E. apply Hurl.
      exact (f_equal (fun r => match imageUrl r with Some u => u | None => [] end) E).
    + intros ->. reflexivity.
    + intros E. apply Hurl.
      exact (f_equal (fun o => match o with Some u => u | None => [] end) E).
    + intros ->. reflexivity.
    + rewrite Hp1, Hp2. reflexivity.
    + intros name Hname. unfold query_get. rewrite Hf1, Hf2. cbn [lookup_field].
      destruct (jsstring_eqb (js "width") name); [reflexivity|].
      destruct (jsstring_eqb (js "height") name); [reflexivity|].
      destruct (jsstring_eqb (js "seed") name) eqn:E;
        [apply jsstring_eqb_eq in E; congruence | reflexivity].
  - split; [split; reflexivity|]. intros a b Ha. discriminate Ha.
Qed.

(** Two draws, 0 and the largest Number below 1, give seeds 0 and 999999. *)
Lemma generateImage_two_runs_witness :
  generateImage (Number.mkRandom (S754_zero false) eq_refl)
    (js "a red fox") [] (mkParams 70 (js "anime") 1 None) <>
  generateImage (Number.mkRandom (S754_finite false 9007199254740991 (-53)) eq_refl)
    (js "a red fox") (js "sketch") (mkParams 30 (js "anime") 4 None).
Proof.
  set (r1 := Number.mkRandom (S754_zero false) eq_refl).
  set (r2 := Number.mkRandom (S754_finite false 9007199254740991 (-53)) eq_refl).
  destruct (generateImage_two_runs r1 r2 (js "a red fox") [] (js "sketch")
              (mkParams 70 (js "anime") 1 None) (mkParams 30 (js "anime") 4 None) eq_refl)
    as (_ & H).
  intros E.
  destruct (generateImage r1 (js "a red fox") [] (mkParams 70 (js "anime") 1 None))
    as [a|] eqn:Ea; [|discriminate Ea].
  destruct (H a a eq_refl (eq_sym E)) as ((Hab & _) & _).
  specialize (Hab eq_refl). discriminate Hab.
Defined.

End GenerateImage.

(** ** The history ring: how the handlers compose *)

Section HistoryRingComposition.
Import DrawingCanvas.

Lemma array_get_nat {A : Type} (l : list A) (n : nat) :
  array_get l (Z.of_nat n) = nth_error l n.
Proof.
  unfold array_get. destruct (Z.of_nat n <? 0) eqn:E; [apply Z.ltb_lt in E; lia|].
  rewrite Nat2Z.id. reflexivity.
Qed.

Lemma undo_moves (st : State) :
  ring_ok st -> 0 < historyIndex st ->
  undo st = mkState (array_get (history st) (historyIndex st - 1))
              (history st) (historyIndex st - 1) false.
Proof.
  intros Hok Hpos. pose proof Hok as [_ Hcur _ [Hc _]]. unfold undo.
  destruct (fabricCanvas st); [|congruence].
  destruct (historyIndex st <=? 0) eqn:E; [apply Z.leb_le in E; lia|].
  apply restore_ok; [assumption | lia].
Qed.

Lemma redo_moves (st : State) :
  ring_ok st -> historyIndex st < Z.of_nat (length (history st)) - 1 ->
  redo st = mkState (array_get (history st) (historyIndex st + 1))
              (history st) (historyIndex st + 1) false.
Proof.
  intros Hok Hlt. pose proof Hok as [_ Hcur _ [Hc _]]. unfold redo.
  destruct (fabricCanvas st); [|congruence].
  destruct (Z.of_nat (length (history st)) - 1 <=? historyIndex st) eqn:E;
    [apply Z.leb_le in E; lia|].
  apply restore_ok; [assumption | lia].
Qed.

Lemma ring_ok_eta (st : State) :
  ring_ok st ->
  st = mkState (array_get (history st) (historyIndex st)) (history st)
         (historyIndex st) false.
Proof.
  intros [_ _ Hidle [_ Hshown]]. destruct st as [c h i g]. cbn in *. congruence.
Qed.

(** X6. Between any two handlers, after any sequence of strokes, undos
    and redos from the initial state, the re-entrancy guard is lowered
    and the canvas shows exactly the history entry under the cursor. *)
Theorem canvas_shows_cursor_entry (s0 : jsstring) (ops : list Op) :
  let st := run ops (initial s0) in
  isHistoryProcessing st = false /\
  visible st <> None /\
  visible st = array_get (history st) (historyIndex st).
Proof.
  intros st.
  assert (Hok : ring_ok st) by apply ring_ok_run, ring_ok_initial.
  destruct Hok as [_ _ Hidle [Hc Hshown]]. auto.
Qed.

(** X7. On a well-formed ring, a stroke (or a clear) can always be
    undone: undo right after it shows the snapshot that was visible
    before, also when the stroke evicted the oldest entry.  A redo right
    after a stroke changes nothing, the undone future being gone. *)
Theorem undo_after_push (st : State) (json : jsstring) (Hok : ring_ok st) :
  visible (undo (handlePathCreated json st)) = visible st /\
  visible (undo (clearCanvas json st)) = visible st /\
  history (undo (handlePathCreated json st)) = history (handlePathCreated json st) /\
  redo (handlePathCreated json st) = handlePathCreated json st.
Proof.
  assert (Hundo : visible (undo (handlePathCreated json st)) = visible st /\
                  history (undo (handlePathCreated json st)) = history (handlePathCreated json st)).
  { pose proof (ring_ok_push json st Hok) as Hok'.
    pose proof Hok as [Hcap Hcur Hidle [Hc Hshown]].
    rewrite undo_moves; [|assumption|].
    2:{ rewrite (push_ok json st Hok). cbn [historyIndex]. lia. }
    cbn [visible fabricCanvas history]. split; [|reflexivity].
    unfold visible. rewrite Hshown, (push_ok json st Hok). cbn [history historyIndex].
    destruct (historyIndex st =? 9) eqn:E9.
    - apply Z.eqb_eq in E9. rewrite E9. change (Z.min (9 + 1) 9 - 1) with (Z.of_nat 8).
      change 9 with (Z.of_nat 9). rewrite !array_get_nat.
      assert (Hlen : length (tl (history st)) = 9%nat).
      { destruct (history st); cbn [tl length] in *; lia. }
      transitivity (nth_error (tl (history st)) 8); [apply nth_error_app1; lia|].
      symmetry. apply nth_error_S.
    - apply Z.eqb_neq in E9.
      replace (Z.min (historyIndex st + 1) 9 - 1) with (historyIndex st) by lia.
      assert (Hi : historyIndex st = Z.of_nat (Z.to_nat (historyIndex st))) by lia.
      assert (Hn : (Z.to_nat (historyIndex st) < length (history st))%nat) by lia.
      revert Hi Hn. generalize (Z.to_nat (historyIndex st)). intros n -> Hn.
      rewrite ?Nat2Z.id, !array_get_nat.
      rewrite nth_error_app1 by (rewrite length_firstn; lia).
      rewrite nth_error_firstn.
      destruct (n <? S n)%nat eqn:E; [reflexivity | apply Nat.ltb_ge in E; lia]. }
  destruct Hundo as [Hv Hh]. repeat split; try assumption.
  pose proof (ring_ok_push json st Hok) as [_ _ _ [Hc' _]].
  unfold redo. destruct (fabricCanvas (handlePathCreated json st)); [|congruence].
  rewrite (push_ok json st Hok). cbn [history historyIndex].
  pose proof Hok as [Hcap Hcur _ _].
  match goal with |- (if ?b then _ else _) = _ => destruct b eqn:E end; [reflexivity|].
  apply Z.leb_gt in E. rewrite length_app in E. cbn [length] in E.
  destruct (historyIndex st =? 9) eqn:E9.
  - apply Z.eqb_eq in E9. destruct (history st); cbn [tl length] in *; lia.
  - apply Z.eqb_neq in E9. rewrite length_firstn in E. lia.
Qed.

(** A stroke on the full ring [0..9]: undo shows the ninth snapshot again. *)
Lemma undo_after_push_witness :
  let full := mkState (Some [57%N]) (map (fun c => [c]) [48; 49; 50; 51; 52; 53; 54; 55; 56; 57]%N) 9 false in
  visible (undo (handlePathCreated [65%N] full)) = Some [57%N].
Proof.
  intros full.
  assert (Hok : ring_ok full).
  { constructor; cbn; try lia; auto. split; [discriminate | reflexivity]. }
  destruct (undo_after_push full [65%N] Hok) as (H & _). exact H.
Defined.

Lemma undo_noop (st : State) : historyIndex st <= 0 -> undo st = st.
Proof.
  intros Hle. unfold undo. destruct (fabricCanvas st); [|reflexivity].
  destruct (historyIndex st <=? 0) eqn:E; [reflexivity | apply Z.leb_gt in E; lia].
Qed.

Lemma redo_noop (st : State) :
  Z.of_nat (length (history st)) - 1 <= historyIndex st -> redo st = st.
Proof.
  intros Hle. unfold redo. destruct (fabricCanvas st); [|reflexivity].
  destruct (Z.of_nat (length (history st)) - 1 <=? historyIndex st) eqn:E;
    [reflexivity | apply Z.leb_gt in E; lia].
Qed.

(** X8. On a well-formed ring, undo leaves the state as it is exactly
    when its toolbar button is disabled ([historyIndex <= 0]), and redo
    exactly when its button is disabled
    ([historyIndex >= history.length - 1]); and where redo does move, an
    undo right after it gives back the state before the redo. *)
Theorem undo_redo_enabled (st : State) (Hok : ring_ok st) :
  (undo st = st <-> historyIndex st <= 0) /\
  (redo st = st <-> Z.of_nat (length (history st)) - 1 <= historyIndex st) /\
  (historyIndex st < Z.of_nat (length (history st)) - 1 -> undo (redo st) = st).
Proof.
  pose proof Hok as [Hcap Hcur Hidle [Hc Hshown]].
  split; [|split].
  - split.
    + intros E. destruct (Z_le_gt_dec (historyIndex st) 0) as [|Hpos]; [assumption|].
      rewrite undo_moves in E by (assumption || lia).
      apply (f_equal historyIndex) in E. cbn in E. lia.
    + apply undo_noop.
  - split.
    + intros E.
      destruct (Z_le_gt_dec (Z.of_nat (length (history st)) - 1) (historyIndex st))
        as [|Hlt]; [assumption|].
      rewrite redo_moves in E by (assumption || lia).
      apply (f_equal historyIndex) in E. cbn in E. lia.
    + apply redo_noop.
  - intros Hlt.
    assert (Hok' : ring_ok (redo st)) by apply ring_ok_redo, Hok.
    rewrite (redo_moves st Hok Hlt) in Hok' |- *.
    rewrite undo_moves; [|assumption | cbn; lia].
    cbn [history historyIndex].
    replace (historyIndex st + 1 - 1) with (historyIndex st) by lia.
    symmetry. apply ring_ok_eta, Hok.
Qed.

(** A three-entry ring at cursor 1: redo, then undo. *)
Lemma undo_redo_enabled_witness :
  let st := mkState (Some (js "b")) [js "a"; js "b"; js "c"] 1 false in
  undo (redo st) = st.
Proof.
  intros st.
  assert (Hok : ring_ok st).
  { constructor; cbn; try lia; auto. split; [discriminate | reflexivity]. }
  destruct (undo_redo_enabled st Hok) as (_ & _ & H).
  apply H. cbn. lia.
Defined.

Lemma iter_undo_ok (k : nat) (st : State) :
  ring_ok st ->
  ring_ok (Nat.iter k undo st) /\
  history (Nat.iter k undo st) = history st /\
  historyIndex (Nat.iter k undo st) = Z.max 0 (historyIndex st - Z.of_nat k).
Proof.
  intros Hok. induction k as [|k (IHok & IHh & IHi)].
  - cbn. pose proof Hok as [_ Hcur _ _]. split; [assumption|]. split; [reflexivity | lia].
  - rewrite Nat.iter_succ. split; [apply ring_ok_undo, IHok|].
    pose proof IHok as [_ Hcur _ _].
    destruct (Z_le_gt_dec (historyIndex (Nat.iter k undo st)) 0) as [Hz|Hpos].
    + rewrite (undo_noop _ Hz). split; [assumption|lia].
    + rewrite (undo_moves _ IHok ltac:(lia)). cbn [history historyIndex].
      split; [assumption|lia].
Qed.

Lemma iter_redo_ok (k : nat) (st : State) :
  ring_ok st ->
  ring_ok (Nat.iter k redo st) /\
  history (Nat.iter k redo st) = history st /\
  historyIndex (Nat.iter k redo st) =
    Z.min (Z.of_nat (length (history st)) - 1) (historyIndex st + Z.of_nat k).
Proof.
  intros Hok. induction k as [|k (IHok & IHh & IHi)].
  - cbn. pose proof Hok as [_ Hcur _ _]. split; [assumption|]. split; [reflexivity | lia].
  - rewrite Nat.iter_succ. split; [apply ring_ok_redo, IHok|].
    pose proof IHok as [_ Hcur _ _].
    destruct (Z_le_gt_dec (Z.of_nat (length (history (Nat.iter k redo st))) - 1)
                (historyIndex (Nat.iter k redo st))) as [Hz|Hlt].
    + rewrite (redo_noop _ Hz). split; [assumption|]. rewrite IHh in Hz. lia.
    + rewrite (redo_moves _ IHok ltac:(lia)). cbn [history historyIndex].
      split; [assumption|]. rewrite IHh in Hlt. lia.
Qed.

(** X9. On a well-formed ring, [k] undos in a row move the cursor to
    [max 0 (cursor - k)] and [k] redos in a row to
    [min (length - 1) (cursor + k)]; neither ever changes the entries, and
    the canvas ends on the entry under the new cursor.  So [k] undos
    followed by [k] redos give back the starting state whenever the
    cursor was at least [k]. *)
Theorem undo_redo_many (k : nat) (st : State) (Hok : ring_ok st) :
  (history (Nat.iter k undo st) = history st /\
   historyIndex (Nat.iter k undo st) = Z.max 0 (historyIndex st - Z.of_nat k) /\
   visible (Nat.iter k undo st) =
     array_get (history st) (Z.max 0 (historyIndex st - Z.of_nat k))) /\
  (history (Nat.iter k redo st) = history st /\
   historyIndex (Nat.iter k redo st) =
     Z.min (Z.of_nat (length (history st)) - 1) (historyIndex st + Z.of_nat k) /\
   visible (Nat.iter k redo st) =
     array_get (history st)
       (Z.min (Z.of_nat (length (history st)) - 1) (historyIndex st + Z.of_nat k))) /\
  (Z.of_nat k <= historyIndex st -> Nat.iter k redo (Nat.iter k undo st) = st).
Proof.
  destruct (iter_undo_ok k st Hok) as (Huok & Huh & Hui).
  destruct (iter_redo_ok k st Hok) as (Hrok & Hrh & Hri).
  split; [|split].
  - repeat split; try assumption.
    destruct Huok as [_ _ _ [_ Hshown]]. unfold visible. rewrite Hshown, Huh, Hui. reflexivity.
  - repeat split; try assumption.
    destruct Hrok as [_ _ _ [_ Hshown]]. unfold visible. rewrite Hshown, Hrh, Hri. reflexivity.
  - intros Hk.
    destruct (iter_redo_ok k _ Huok) as (Hok2 & Hh2 & Hi2).
    etransitivity; [apply ring_ok_eta, Hok2|].
    rewrite Hh2, Hi2, Huh, Hui.
    pose proof Hok as [_ Hcur _ _].
    replace (Z.min (Z.of_nat (length (history st)) - 1)
               (Z.max 0 (historyIndex st - Z.of_nat k) + Z.of_nat k))
      with (historyIndex st) by lia.
    symmetry. apply ring_ok_eta, Hok.
Qed.

(** Three undos and three redos on a five-entry ring at cursor 4. *)
Lemma undo_redo_many_witness :
  let st := mkState (Some [52%N]) (map (fun c => [c]) [48; 49; 50; 51; 52]%N) 4 false in
  Nat.iter 3 redo (Nat.iter 3 undo st) = st.
Proof.
  intros st.
  assert (Hok : ring_ok st).
  { constructor; cbn; try lia; auto. split; [discriminate | reflexivity]. }
  destruct (undo_redo_many 3 st Hok) as (_ & _ & H).
  apply H. cbn. lia.
Defined.

Lemma last_app_nonempty {A : Type} (l1 l2 : list A) (d : A) :
  l2 <> [] -> last (l1 ++ l2) d = last l2 d.
Proof.
  intros H2. induction l1 as [|x l1 IH]; [reflexivity|].
  cbn [app last]. destruct (l1 ++ l2) eqn:E; [|exact IH].
  apply app_eq_nil in E. destruct E. contradiction.
Qed.

Lemma array_get_last_index {A : Type} (l : list A) (d : A) :
  l <> [] -> array_get l (Z.of_nat (length l) - 1) = Some (last l d).
Proof.
  intros Hl.
  replace (Z.of_nat (length l) - 1) with (Z.of_nat (length l - 1))
    by (destruct l; [congruence | cbn [length]; lia]).
  rewrite array_get_nat.
  induction l as [|x l IH]; [congruence|].
  destruct l as [|y l]; [reflexivity|].
  cbn [length Nat.sub] in *. rewrite Nat.sub_0_r in *. cbn [nth_error last].
  apply IH. discriminate.
Qed.

Lemma push_at_end (json : jsstring) (st : State) :
  ring_ok st -> historyIndex st = Z.of_nat (length (history st)) - 1 ->
  ring_ok (handlePathCreated json st) /\
  historyIndex (handlePathCreated json st) =
    Z.of_nat (length (history (handlePathCreated json st))) - 1 /\
  history (handlePathCreated json st) =
    skipn (length (history st ++ [json]) - 10) (history st ++ [json]).
Proof.
  intros Hok Hend. split; [apply ring_ok_push, Hok|].
  pose proof (ring_ok_push json st Hok) as Hok'.
  rewrite (push_ok json st Hok) in *. cbn [history historyIndex] in *.
  pose proof Hok as [Hcap Hcur _ _].
  rewrite length_app. cbn [length].
  destruct (historyIndex st =? 9) eqn:E9.
  - apply Z.eqb_eq in E9.
    assert (Hlen : length (history st) = 10%nat) by lia.
    rewrite length_app, Hlen. cbn [length Nat.add Nat.sub].
    split; [destruct (history st); cbn [tl length] in *; lia|].
    destruct (history st); [discriminate Hlen | reflexivity].
  - apply Z.eqb_neq in E9.
    rewrite firstn_all2 by lia.
    rewrite length_app. cbn [length].
    split; [lia|].
    replace (length (history st) + 1 - 10)%nat with 0%nat by lia. reflexivity.
Qed.

(** X10. The ring keeps the latest ten: after any number of strokes in a
    row from the initial state, the entries are the last ten of the
    initial snapshot followed by the strokes' snapshots, in order, and
    the cursor is on the last one. *)
Theorem strokes_keep_last_ten (s0 : jsstring) (snapshots : list jsstring) :
  let st := run (map Push snapshots) (initial s0) in
  history st = skipn (length (s0 :: snapshots) - 10) (s0 :: snapshots) /\
  historyIndex st = Z.of_nat (length (history st)) - 1 /\
  visible st = Some (last snapshots s0).
Proof.
  assert (Hgen : forall l st,
            ring_ok st -> historyIndex st = Z.of_nat (length (history st)) - 1 ->
            ring_ok (run (map Push l) st) /\
            historyIndex (run (map Push l) st) =
              Z.of_nat (length (history (run (map Push l) st))) - 1 /\
            history (run (map Push l) st) =
              skipn (length (history st ++ l) - 10) (history st ++ l)).
  { induction l as [|json l IH]; intros st Hok Hend.
    - cbn [map run fold_left]. split; [assumption|]. split; [assumption|].
      rewrite app_nil_r. destruct Hok as [Hcap _ _ _].
      replace (length (history st) - 10)%nat with 0%nat by lia. reflexivity.
    - cbn [map run fold_left step].
      destruct (push_at_end json st Hok Hend) as (Hok' & Hend' & Hh').
      destruct (IH _ Hok' Hend') as (Hok2 & Hend2 & Hh2).
      split; [exact Hok2|]. split; [exact Hend2|].
      unfold run in Hh2. rewrite Hh2, Hh'.
      set (k := (length (history st ++ [json]) - 10)%nat).
      assert (Hk : (k <= length (history st ++ [json]))%nat) by (unfold k; lia).
      replace (skipn k (history st ++ [json]) ++ l)
        with (skipn k ((history st ++ [json]) ++ l))
        by (rewrite skipn_app; replace (k - length (history st ++ [json]))%nat with 0%nat by lia;
            reflexivity).
      rewrite skipn_skipn, <- app_assoc. cbn [app].
      f_equal. rewrite !length_skipn, !length_app. cbn [length].
      unfold k. rewrite length_app. cbn [length].
      destruct Hok as [Hcap _ _ _]. lia. }
  cbv zeta.
  destruct (Hgen snapshots (initial s0) (ring_ok_initial s0) eq_refl) as (Hok & Hend & Hh).
  change (history (initial s0) ++ snapshots) with (s0 :: snapshots) in Hh.
  clear Hgen. revert Hok Hend Hh.
  generalize (run (map Push snapshots) (initial s0)). intros st Hok Hend Hh.
  split; [exact Hh|]. split; [exact Hend|].
  destruct Hok as [_ _ _ [_ Hshown]]. unfold visible.
  rewrite Hshown, Hend, Hh.
  set (l := s0 :: snapshots).
  assert (Hl : l <> []) by discriminate.
  replace (last snapshots s0) with (last l s0) by (unfold l; destruct snapshots; reflexivity).
  set (t := skipn (length l - 10) l).
  assert (Ht : t <> []).
  { unfold t. intros E. apply (f_equal (@length _)) in E. rewrite length_skipn in E.
    destruct l; [congruence|]. cbn [length] in E. lia. }
  assert (Hlast : last t s0 = last l s0).
  { transitivity (last (firstn (length l - 10) l ++ t) s0).
    - symmetry. apply last_app_nonempty, Ht.
    - unfold t. rewrite firstn_skipn. reflexivity. }
  rewrite <- Hlast. apply array_get_last_index, Ht.
Qed.

End HistoryRingComposition.

(** ** The prompt store: debounce, clearing, persistence *)

Section PromptStoreSequences.
Import TextPromptInput.

Lemma last_cons_default {A : Type} (x d : A) (l : list A) :
  last (x :: l) d = last l x.
Proof.
  revert x d. induction l as [|y l IH]; intros x d; [reflexivity|].
  change (last (x :: y :: l) d) with (last (y :: l) d).
  rewrite (IH y d), (IH y x). reflexivity.
Qed.

Lemma handleChange_fold (maxLength : Z) (values : list jsstring) :
  forall st,
  let st' := fold_left (fun s v => handleChange maxLength v s) values st in
  let accepted := filter (fun v => jslength v <=? maxLength) values in
  prompt st' = last accepted (prompt st) /\
  saveTimeout st' = last (map Some accepted) (saveTimeout st) /\
  localStorage st' = localStorage st /\
  history st' = history st /\
  notified st' = rev accepted ++ notified st.
Proof.
  induction values as [|v values IH]; intros st; cbn [fold_left filter].
  - cbn. auto.
  - specialize (IH (handleChange maxLength v st)). cbv zeta in IH.
    destruct IH as (Hp & Ht & Hs & Hh & Hn).
    rewrite Hp, Ht, Hs, Hh, Hn. unfold handleChange.
    destruct (jslength v <=? maxLength) eqn:E;
      cbn [prompt saveTimeout localStorage history notified].
    + cbn [map rev]. rewrite !last_cons_default, <- app_assoc. cbn [app]. auto.
    + auto.
Qed.

(** X11. The draft save is debounced with the last write winning: after
    any run of changes, the prompt is the last accepted value (values
    over the maximum length are passed over), nothing has been written
    to storage yet, one timer is pending and it carries that same value;
    when it fires the draft stored is that value, and a second firing
    finds nothing left to do. *)
Theorem draft_save_debounced (maxLength : Z) (values : list jsstring) (st : State) :
  let st' := fold_left (fun s v => handleChange maxLength v s) values st in
  let accepted := filter (fun v => jslength v <=? maxLength) values in
  prompt st' = last accepted (prompt st) /\
  localStorage st' = localStorage st /\
  (accepted <> [] ->
     saveTimeout st' = Some (prompt st') /\
     prompt_draft (localStorage (saveTimeout_fires st')) = Some (prompt st')) /\
  saveTimeout (saveTimeout_fires st') = None /\
  saveTimeout_fires (saveTimeout_fires st') = saveTimeout_fires st'.
Proof.
  cbv zeta.
  destruct (handleChange_fold maxLength values st) as (Hp & Ht & Hs & _).
  cbv zeta in Hp, Ht, Hs.
  set (st' := fold_left (fun s v => handleChange maxLength v s) values st) in *.
  set (accepted := filter (fun v => jslength v <=? maxLength) values) in *.
  assert (Hfired : saveTimeout (saveTimeout_fires st') = None).
  { unfold saveTimeout_fires. destruct (saveTimeout st') eqn:E; cbn; [reflexivity | exact E]. }
  repeat split; try assumption.
  - rewrite Ht, Hp. destruct accepted as [|a l]; [congruence|].
    cbn [map]. rewrite !last_cons_default. clear. revert a.
    induction l as [|b l IH]; intros a; [reflexivity|].
    cbn [map]. rewrite !last_cons_default. apply IH.
  - unfold saveTimeout_fires. rewrite Ht, Hp. destruct accepted as [|a l]; [congruence|].
    assert (E : last (map Some (a :: l)) (saveTimeout st) = Some (last (a :: l) (prompt st))).
    { cbn [map]. rewrite !last_cons_default. clear. revert a.
      induction l as [|b l IH]; intros a; [reflexivity|].
      cbn [map]. rewrite !last_cons_default. apply IH. }
    rewrite E. reflexivity.
  - unfold saveTimeout_fires at 1. rewrite Hfired. reflexivity.
Qed.

(** Three keystrokes with the maximum at 5 code units; the long one is
    passed over. *)
Lemma draft_save_debounced_witness :
  let st := unmounted (mkStorage None None) in
  let st' := fold_left (fun s v => handleChange 5 v s) [js "a"; js "ab"; js "abcdefgh"] st in
  prompt_draft (localStorage (saveTimeout_fires st')) = Some (js "ab").
Proof.
  intros st st'.
  destruct (draft_save_debounced 5 [js "a"; js "ab"; js "abcdefgh"] st) as (_ & _ & H & _).
  destruct (H ltac:(discriminate)) as (_ & Hd). exact Hd.
Defined.

(** X12. [handleClear] removes the stored draft but leaves a pending
    save armed.  So when an accepted change is cleared before its timer
    has fired, the firing stores the cleared text as the draft again, and
    the next mount shows it (unless it is empty); cleared after the
    firing, the draft is gone. *)
Theorem clear_keeps_pending_save (maxLength : Z) (value : jsstring) (st : State)
    (Haccepted : jslength value <= maxLength) :
  let early := saveTimeout_fires (handleClear (handleChange maxLength value st)) in
  let late := handleClear (saveTimeout_fires (handleChange maxLength value st)) in
  prompt (handleClear (handleChange maxLength value st)) = [] /\
  prompt_draft (localStorage (handleClear (handleChange maxLength value st))) = None /\
  prompt early = [] /\
  prompt_draft (localStorage early) = Some value /\
  prompt (mount (unmounted (localStorage early))) = value /\
  prompt_draft (localStorage late) = None /\
  prompt (mount (unmounted (localStorage late))) = [].
Proof.
  cbv zeta. unfold handleChange.
  destruct (jslength value <=? maxLength) eqn:E; [|apply Z.leb_gt in E; lia].
  cbn. repeat split.
  - destruct (prompt_history (localStorage st)); cbn;
      (destruct value; [reflexivity|]); cbn;
      destruct (prompt_history (localStorage st)); reflexivity.
  - destruct (prompt_history (localStorage st)); reflexivity.
Qed.

(** Typing, clearing at once, and reloading after the timer. *)
Lemma clear_keeps_pending_save_witness :
  let st := unmounted (mkStorage None None) in
  prompt (mount (unmounted (localStorage
            (saveTimeout_fires (handleClear (handleChange 500 (js "a red fox") st))))))
  = js "a red fox".
Proof.
  intros st.
  destruct (clear_keeps_pending_save 500 (js "a red fox") st ltac:(cbn; lia))
    as (_ & _ & _ & _ & H & _).
  exact H.
Defined.

Lemma NoDup_firstn {A : Type} (n : nat) (l : list A) : NoDup l -> NoDup (firstn n l).
Proof.
  intros H. revert n. induction H as [|x l Hx Hl IH]; intros [|n]; cbn; try constructor.
  - intros Hin. apply Hx. eapply In_firstn, Hin.
  - apply IH.
Qed.

Lemma recency_ok_addToHistory (text : jsstring) (st : State) :
  recency_ok st -> recency_ok (addToHistory text st).
Proof.
  intros Hok. destruct (forallb is_white_space text) eqn:Hb.
  - unfold addToHistory. apply blank_iff in Hb. rewrite Hb. exact Hok.
  - destruct Hok as (Hnd & Hlen & Hnb & Hst).
    rewrite (addToHistory_entries text st Hb). cbv zeta.
    unfold recency_ok. cbn [history localStorage prompt_history].
    set (f := fun h => negb (jsstring_eqb h text)).
    split; [|split; [|split; [|reflexivity]]].
    + constructor.
      * intros Hin. apply In_firstn, filter_In in Hin. destruct Hin as [_ Hin].
        unfold f in Hin. rewrite jsstring_eqb_refl in Hin. discriminate.
      * apply NoDup_firstn, NoDup_filter, Hnd.
    + cbn [length]. rewrite length_firstn. lia.
    + constructor; [exact Hb|].
      apply Forall_forall. intros h Hin. apply In_firstn, filter_In in Hin.
      destruct Hin as [Hin _]. revert h Hin. apply Forall_forall, Hnb.
Qed.

Lemma recency_ok_step (maxLength : Z) (st : State) (ev : Event) :
  recency_ok st -> recency_ok (step maxLength st ev).
Proof.
  intros Hok. destruct ev as [value| | |templateText|item]; cbn [step].
  - unfold handleChange. destruct (jslength value <=? maxLength); exact Hok.
  - unfold saveTimeout_fires. destruct (saveTimeout st); exact Hok.
  - exact Hok.
  - unfold applyTemplate. apply recency_ok_addToHistory. exact Hok.
  - exact Hok.
Qed.

(** X13. Starting from a recency list without repetition, of at most 10
    texts, none blank, and stored as shown (the empty list of a fresh
    storage is one), every sequence of changes, timer firings, clears,
    template choices and clicks on recent prompts keeps it so; and what a
    later mount reads back from storage is the list as it was last
    shown. *)
Theorem recency_list_invariant (maxLength : Z) (evs : list Event) (st : State)
    (Hok : recency_ok st) :
  recency_ok (run maxLength evs st) /\
  history (mount (unmounted (localStorage (run maxLength evs st)))) =
    history (run maxLength evs st).
Proof.
  assert (Hrun : recency_ok (run maxLength evs st)).
  { revert st Hok. unfold run. induction evs as [|ev evs IH]; intros st Hok; cbn [fold_left].
    - exact Hok.
    - apply IH, recency_ok_step, Hok. }
  split; [exact Hrun|].
  destruct Hrun as (_ & _ & _ & Hst).
  generalize dependent (run maxLength evs st). intros st' Hst.
  unfold mount, unmounted. cbn [localStorage prompt_draft prompt_history].
  destruct (prompt_history (localStorage st')) as [stored|];
    destruct (prompt_draft (localStorage st')) as [d|];
    try (destruct (is_falsy d)); cbn [history]; congruence.
Qed.

(** Two templates, the first one chosen again, and a reload. *)
Lemma recency_list_invariant_witness :
  let evs := [Template (js "a cat"); Change (js "a"); Template (js "a dog");
              TimerFires; Template (js "a cat"); Clear] in
  let st := run 500 evs (unmounted (mkStorage None None)) in
  history st = [js "a cat"; js "a dog"] /\
  history (mount (unmounted (localStorage st))) = [js "a cat"; js "a dog"].
Proof.
  intros evs st.
  assert (Hok : recency_ok (unmounted (mkStorage None None))).
  { unfold recency_ok. cbn. repeat split; try constructor; lia. }
  destruct (recency_list_invariant 500 evs _ Hok) as (_ & H).
  fold st in H. split; [reflexivity|]. rewrite H. reflexivity.
Defined.

End PromptStoreSequences.

(** ** The parameter panel: how updates compose *)

Section ParameterUpdates.
Import ControlParameters.

(** X14. Updates of two different fields commute; of two updates of the
    same field the later one alone counts; writing a field's current
    value changes nothing; and whatever was updated, a reset gives the
    defaults, which are also the parameters [App] starts with. *)
Theorem updateParam_compose (k1 k2 : Key) (v1 w1 : Value k1) (v2 : Value k2)
    (p : GenerationParams) :
  (k1 <> k2 ->
     updateParam k1 v1 (updateParam k2 v2 p) = updateParam k2 v2 (updateParam k1 v1 p)) /\
  updateParam k1 w1 (updateParam k1 v1 p) = updateParam k1 w1 p /\
  updateParam k1 (get k1 p) p = p /\
  resetToDefaults (updateParam k1 v1 (updateParam k2 v2 p)) = App.params App.initial.
Proof.
  split; [|split; [|split]].
  - intros Hk. destruct k1, k2; try reflexivity; congruence.
  - destruct k1; reflexivity.
  - destruct k1, p; reflexivity.
  - reflexivity.
Qed.

(** Style then strength, strength then style. *)
Lemma updateParam_compose_witness :
  updateParam KStyle (js "anime") (updateParam KSketchStrength 30 DEFAULT_PARAMS) =
  updateParam KSketchStrength 30 (updateParam KStyle (js "anime") DEFAULT_PARAMS).
Proof.
  destruct (updateParam_compose KStyle KSketchStrength (js "anime") (js "sketch") 30
              DEFAULT_PARAMS) as (H & _).
  apply H. discriminate.
Defined.

End ParameterUpdates.

(** ** The generate action *)

Section GenerateAction.
Import GenerationService URL.



End GenerateAction.

(** ** The result viewer: zoom *)

Section Zoom.
Import ResultDisplay.

Lemma number_eqb_eq (x y : Number.number) : number_eqb x y = true -> x = y.
Proof.
  destruct x as [s|s| |s m e], y as [t|t| |t n f]; cbn; try discriminate; intros H.
  - apply eqb_prop in H. congruence.
  - apply eqb_prop in H. congruence.
  - reflexivity.
  - apply andb_true_iff in H. destruct H as [H He].
    apply andb_true_iff in H. destruct H as [Hs Hm].
    apply eqb_prop in Hs. apply Pos.eqb_eq in Hm. apply Z.eqb_eq in He. congruence.
Qed.

(** One step of zoom on each of the eleven levels, by evaluation. *)
Lemma zoom_steps_on_levels :
  forallb (fun k =>
    let st := mkState 50 (literal (Z.of_nat k) (-2)) true 0 in
    number_eqb (zoom (zoomIn st)) (literal (Z.of_nat (Nat.min (k + 1) 12)) (-2)) &&
    number_eqb (zoom (zoomOut st)) (literal (Z.of_nat (Nat.max (k - 1) 2)) (-2)))
    (seq 2 11) = true.
Proof. vm_compute. reflexivity. Qed.

Lemma zoom_step_level (k : nat) (st : State) :
  (2 <= k <= 12)%nat -> zoom st = literal (Z.of_nat k) (-2) ->
  zoom (zoomIn st) = literal (Z.of_nat (Nat.min (k + 1) 12)) (-2) /\
  zoom (zoomOut st) = literal (Z.of_nat (Nat.max (k - 1) 2)) (-2).
Proof.
  intros Hk Hz.
  pose proof zoom_steps_on_levels as H. rewrite forallb_forall in H.
  specialize (H k ltac:(apply in_seq; lia)). cbv zeta in H.
  apply andb_true_iff in H. destruct H as [Hin Hout].
  apply number_eqb_eq in Hin, Hout.
  unfold zoomIn, zoomOut in *. cbn [zoom] in *. rewrite Hz. auto.
Qed.

Lemma zoom_level_step (st : State) (ev : Event) :
  (exists k, (2 <= k <= 12)%nat /\ zoom st = literal (Z.of_nat k) (-2)) ->
  exists k, (2 <= k <= 12)%nat /\ zoom (step st ev) = literal (Z.of_nat k) (-2).
Proof.
  intros (k & Hk & Hz). destruct ev as [img| | | |s|position]; cbn [step].
  - unfold image_arrives. destruct img as [[|c u]|]; [eauto| |eauto].
    exists 4%nat. split; [lia | reflexivity].
  - destruct (zoom_step_level k st Hk Hz) as [_ H]. eexists. split; [|exact H]. lia.
  - destruct (zoom_step_level k st Hk Hz) as [H _]. eexists. split; [|exact H]. lia.
  - exists k. auto.
  - exists k. auto.
  - exists k. auto.
Qed.

(** X16. Whatever the user does in the result viewer, the zoom factor is
    exactly one of 0.5, 0.75, ..., 3 ([k/4] for some [k] from 2 to 12; the
    floating-point additions never drift off them).  From [k/4], zooming
    in gives [min (k+1) 12 / 4] and zooming out [max (k-1) 2 / 4]: the
    factor stops at 3 and at 0.5. *)
Theorem zoom_on_levels (evs : list Event) :
  let st := run evs initial in
  exists k,
    (2 <= k <= 12)%nat /\
    zoom st = literal (Z.of_nat k) (-2) /\
    In (zoom st) zoom_levels /\
    zoom (zoomIn st) = literal (Z.of_nat (Nat.min (k + 1) 12)) (-2) /\
    zoom (zoomOut st) = literal (Z.of_nat (Nat.max (k - 1) 2)) (-2).
Proof.
  cbv zeta.
  assert (H : exists k, (2 <= k <= 12)%nat /\
                        zoom (run evs initial) = literal (Z.of_nat k) (-2)).
  { assert (Hinit : exists k, (2 <= k <= 12)%nat /\ zoom initial = literal (Z.of_nat k) (-2))
      by (exists 4%nat; split; [lia | reflexivity]).
    unfold run. revert Hinit. generalize initial.
    induction evs as [|ev evs IH]; intros st Hst; cbn [fold_left]; [exact Hst|].
    apply IH, zoom_level_step, Hst. }
  destruct H as (k & Hk & Hz). exists k.
  destruct (zoom_step_level k _ Hk Hz) as [Hin Hout].
  repeat split; try assumption; try lia.
  rewrite Hz. unfold zoom_levels.
  apply (in_map (fun k => literal (Z.of_nat k) (-2))), in_seq. lia.
Qed.

End Zoom.

(** ** The style lookup of [enhancePrompt] *)

Section StyleLookup.
Import GenerationService.

(** X19. [enhancePrompt] appends what the property read
    [styleSuffixes[style]] gives.  A key of the table, as each of the 8
    declared styles is, gives its suffix, which starts with a comma; a
    string that is no key and no property name of [Object.prototype]
    gives nothing, so the prompt comes back unchanged; but a property
    name of [Object.prototype] ("constructor", "toString", "__proto__",
    ...) is no key of the table and still gets a text appended, the
    inherited value being truthy. *)
Theorem enhancePrompt_style_lookup (prompt style : jsstring) :
  (forall suffix, own_property styleSuffixes style = Some suffix ->
     enhancePrompt prompt style = prompt ++ suffix) /\
  (forall preset : StylePreset,
     exists suffix, own_property styleSuffixes (style_name preset) = Some (44%N :: suffix)) /\
  (own_property styleSuffixes style = None -> ~ In style inherited_names ->
     enhancePrompt prompt style = prompt) /\
  (In style inherited_names ->
     own_property styleSuffixes style = None /\
     enhancePrompt prompt style <> prompt).
Proof.
  split; [|split; [|split]].
  - intros suffix H. unfold enhancePrompt, get_property. rewrite H.
    destruct suffix; cbn; [rewrite app_nil_r|]; reflexivity.
  - intros preset. destruct preset; eexists; reflexivity.
  - intros Hnone Hinh. unfold enhancePrompt, get_property. rewrite Hnone.
    unfold inherited_names in Hinh. cbn [In] in Hinh.
    destruct (jsstring_eqb style (js "__proto__")) eqn:E1;
      [apply jsstring_eqb_eq in E1; symmetry in E1; tauto|].
    destruct (jsstring_eqb style (js "constructor")) eqn:E2;
      [apply jsstring_eqb_eq in E2; symmetry in E2; tauto|].
    rewrite existsb_eqb_false by tauto.
    cbn. apply app_nil_r.
  - intros Hin. unfold inherited_names in Hin. cbn [In Object_prototype_methods] in Hin.
    assert (Hneq : forall text : jsstring, text <> [] -> prompt ++ text <> prompt).
    { intros text Ht E. apply Ht. apply (app_inv_head prompt). rewrite app_nil_r. exact E. }
    repeat (destruct Hin as [Hin|Hin];
            [subst style; split; [reflexivity | apply Hneq; discriminate]|]).
    contradiction.
Qed.

(** A key, a string that is nothing, and an inherited name. *)
Lemma enhancePrompt_style_lookup_witness :
  enhancePrompt (js "a cat") (js "sketch") =
    js "a cat, pencil sketch, charcoal drawing, rough lines, artistic" /\
  enhancePrompt (js "a cat") (js "pixel-art") = js "a cat" /\
  enhancePrompt (js "a cat") (js "toString") <> js "a cat".
Proof.
  split; [|split].
  - destruct (enhancePrompt_style_lookup (js "a cat") (js "sketch")) as (H & _).
    apply (H _ eq_refl).
  - destruct (enhancePrompt_style_lookup (js "a cat") (js "pixel-art")) as (_ & _ & H & _).
    apply H; [reflexivity|].
    intros Hin. cbn in Hin. repeat (destruct Hin as [Hin|Hin]; [discriminate Hin|]). exact Hin.
  - destruct (enhancePrompt_style_lookup (js "a cat") (js "toString")) as (_ & _ & _ & H).
    apply H. cbn. tauto.
Defined.

End StyleLookup.

(** ** [decodeURIComponent] undoes [encodeURIComponent] *)

Section PercentDecoding.
Import GenerationService URL.

Local Open Scope N_scope.

Lemma lor_add_disjoint (a x k : N) :
  x < 2 ^ k -> N.lor (a * 2 ^ k) x = a * 2 ^ k + x.
Proof.
  intros Hx.
  assert (Hl : N.land (a * 2 ^ k) x = 0).
  { apply N.bits_inj. intros n. rewrite N.land_spec, N.bits_0.
    destruct (N.lt_ge_cases n k) as [Hn|Hn].
    - rewrite <- N.shiftl_mul_pow2, N.shiftl_spec_low by assumption. reflexivity.
    - destruct x as [|p]; [rewrite N.bits_0, andb_false_r; reflexivity|].
      rewrite (N.bits_above_log2 (N.pos p)), andb_false_r; [reflexivity|].
      apply N.log2_lt_pow2; [lia|].
      eapply N.lt_le_trans; [exact Hx|]. apply N.pow_le_mono_r; lia. }
  rewrite (N.add_nocarry_lxor _ _ Hl). symmetry. apply N.lxor_lor. exact Hl.
Qed.

Lemma div_lt_bound (a b c : N) : b <> 0 -> a < b * c -> a / b < c.
Proof. intros Hb H. apply N.Div0.div_lt_upper_bound; assumption. Qed.

(** The octets in arithmetic terms. *)
Lemma utf8_octets_arith (cp : N) :
  cp < 2097152 ->
  utf8_octets cp =
    if cp <? 128 then [cp]
    else if cp <? 2048 then [192 + cp / 64; 128 + cp mod 64]
    else if cp <? 65536 then
      [224 + cp / 4096; 128 + (cp / 64) mod 64; 128 + cp mod 64]
    else
      [240 + cp / 262144; 128 + (cp / 4096) mod 64; 128 + (cp / 64) mod 64;
       128 + cp mod 64].
Proof.
  intros Hcp. unfold utf8_octets.
  change 63 with (N.ones 6). rewrite !N.land_ones, !N.shiftr_div_pow2.
  change (2 ^ 6) with 64. change (2 ^ 12) with 4096. change (2 ^ 18) with 262144.
  assert (Hc : forall x, N.lor 128 (x mod 64) = 128 + x mod 64).
  { intros x. apply (lor_add_disjoint 2 (x mod 64) 6). apply N.mod_lt. discriminate. }
  rewrite !Hc.
  destruct (cp <? 128) eqn:E1; [reflexivity|].
  destruct (cp <? 2048) eqn:E2.
  { apply N.ltb_lt in E2. f_equal.
    apply (lor_add_disjoint 3 (cp / 64) 6). apply div_lt_bound; [discriminate|].
    change (2 ^ 6) with 64. lia. }
  destruct (cp <? 65536) eqn:E3.
  { apply N.ltb_lt in E3. f_equal.
    apply (lor_add_disjoint 7 (cp / 4096) 5). apply div_lt_bound; [discriminate|].
    change (2 ^ 5) with 32. lia. }
  f_equal.
  apply (lor_add_disjoint 15 (cp / 262144) 4). apply div_lt_bound; [discriminate|].
  change (2 ^ 4) with 16. lia.
Qed.

Ltac Zify.zify_post_hook ::= Z.to_euclidean_division_equations.

Ltac decide_tests :=
  repeat match goal with
  | |- context [(?a <? ?b)] =>
      first [ replace (a <? b) with true by (symmetry; apply N.ltb_lt; lia)
            | replace (a <? b) with false by (symmetry; apply N.ltb_ge; lia) ]
  | |- context [(?a <=? ?b)] =>
      first [ replace (a <=? b) with true by (symmetry; apply N.leb_le; lia)
            | replace (a <=? b) with false by (symmetry; apply N.leb_gt; lia) ]
  end.

(** The sixteen hexadecimal digits, by evaluation: each is read back as
    its value and is an unreserved character. *)
Lemma hex_digits_checked :
  forallb (fun k =>
    let n := N.of_nat k in
    match hex_value (hex_digit n) with Some m => m =? n | None => false end &&
    uri_unescaped (hex_digit n)) (seq 0 16) = true.
Proof. reflexivity. Qed.

Lemma hex_digit_spec (n : N) :
  n < 16 -> hex_value (hex_digit n) = Some n /\ uri_unescaped (hex_digit n) = true.
Proof.
  intros H. pose proof hex_digits_checked as Hall. rewrite forallb_forall in Hall.
  specialize (Hall (N.to_nat n) ltac:(apply in_seq; lia)). cbv zeta in Hall.
  rewrite Nnat.N2Nat.id in Hall. apply andb_true_iff in Hall. destruct Hall as [Hv Hu].
  split; [|exact Hu].
  destruct (hex_value (hex_digit n)) as [m|]; [|discriminate].
  apply N.eqb_eq in Hv. congruence.
Qed.

Lemma hex_value_digit (n : N) : n < 16 -> hex_value (hex_digit n) = Some n.
Proof. intros H. apply hex_digit_spec, H. Qed.

Lemma unescape_percent_octet (b : N) (rest : jsstring) :
  b < 256 ->
  unescape (percent_octet b ++ rest) = option_map (cons (Oct b)) (unescape rest).
Proof.
  intros Hb. unfold percent_octet. cbn [app unescape].
  change (37 =? 37) with true. cbv iota.
  change 15 with (N.ones 4). rewrite N.land_ones, N.shiftr_div_pow2.
  change (2 ^ 4) with 16.
  rewrite !hex_value_digit by lia.
  replace (16 * (b / 16) + b mod 16) with b by lia. reflexivity.
Qed.

Lemma unescape_percent_octets (bs : list N) (rest : jsstring) :
  Forall (fun b => b < 256) bs ->
  unescape (percent_octets bs ++ rest) = option_map (app (map Oct bs)) (unescape rest).
Proof.
  intros H. induction H as [|b bs Hb Hbs IH].
  - cbn. destruct (unescape rest); reflexivity.
  - unfold percent_octets in *. cbn [flat_map map]. rewrite <- app_assoc.
    rewrite (unescape_percent_octet b _ Hb), IH.
    destruct (unescape rest); reflexivity.
Qed.

Lemma unescape_literal (c : N) (rest : jsstring) :
  uri_unescaped c = true ->
  unescape (c :: rest) = option_map (cons (Lit c)) (unescape rest).
Proof.
  intros Hc. cbn [unescape].
  destruct (c =? 37) eqn:E; [apply N.eqb_eq in E; subst c; discriminate Hc | reflexivity].
Qed.

(** A Unicode scalar value: a code point that is not a surrogate. *)
Lemma utf8_octets_small (cp : N) :
  cp < 1114112 -> Forall (fun b => b < 256) (utf8_octets cp).
Proof.
  intros Hcp. rewrite utf8_octets_arith by lia.
  destruct (cp <? 128) eqn:E1; [apply N.ltb_lt in E1; repeat constructor; lia|].
  destruct (cp <? 2048) eqn:E2; [apply N.ltb_lt in E2; repeat constructor; lia|].
  destruct (cp <? 65536) eqn:E3; [apply N.ltb_lt in E3; repeat constructor; lia|].
  repeat constructor; lia.
Qed.

Lemma utf8_decode_octets (cp : N) (items : list Item) :
  cp < 1114112 -> (cp < 55296 \/ 57343 < cp) ->
  utf8_decode (map Oct (utf8_octets cp) ++ items) =
    option_map (app (utf16_units cp)) (utf8_decode items).
Proof.
  intros Hcp Hs. rewrite utf8_octets_arith by lia. unfold utf16_units.
  destruct (cp <? 128) eqn:E1.
  { apply N.ltb_lt in E1. cbn [map app utf8_decode]. decide_tests. cbv iota.
    destruct (utf8_decode items); reflexivity. }
  apply N.ltb_ge in E1.
  destruct (cp <? 2048) eqn:E2.
  { apply N.ltb_lt in E2. cbn [map app utf8_decode continuation].
    decide_tests. cbn [andb]. cbv iota. decide_tests. cbv iota.
    replace ((192 + cp / 64 - 192) * 64 + (128 + cp mod 64 - 128)) with cp by lia.
    unfold utf16_units. decide_tests. reflexivity. }
  apply N.ltb_ge in E2.
  destruct (cp <? 65536) eqn:E3.
  { apply N.ltb_lt in E3. cbn [map app utf8_decode continuation].
    decide_tests. cbn [andb]. cbv iota. decide_tests. cbn [andb]. cbv iota.
    replace (((224 + cp / 4096 - 224) * 64 + (128 + (cp / 64) mod 64 - 128)) * 64 +
             (128 + cp mod 64 - 128)) with cp by lia.
    destruct Hs as [Hs|Hs]; decide_tests; cbn [andb negb]; cbv iota;
      unfold utf16_units; decide_tests; reflexivity. }
  apply N.ltb_ge in E3.
  cbn [map app utf8_decode continuation].
  decide_tests. cbn [andb]. cbv iota. decide_tests. cbn [andb]. cbv iota.
  replace ((((240 + cp / 262144 - 240) * 64 + (128 + (cp / 4096) mod 64 - 128)) * 64 +
            (128 + (cp / 64) mod 64 - 128)) * 64 + (128 + cp mod 64 - 128)) with cp by lia.
  decide_tests. cbn [andb]. cbv iota. unfold utf16_units. decide_tests. reflexivity.
Qed.

Lemma decode_percent (cp : N) (rest : jsstring) :
  cp < 1114112 -> (cp < 55296 \/ 57343 < cp) ->
  decodeURIComponent (percent_octets (utf8_octets cp) ++ rest) =
    option_map (app (utf16_units cp)) (decodeURIComponent rest).
Proof.
  intros Hcp Hs. unfold decodeURIComponent.
  rewrite (unescape_percent_octets _ rest (utf8_octets_small cp Hcp)).
  destruct (unescape rest) as [items|]; [|reflexivity].
  cbn [option_map]. apply utf8_decode_octets; assumption.
Qed.

Lemma decode_literal (c : N) (rest : jsstring) :
  uri_unescaped c = true ->
  decodeURIComponent (c :: rest) = option_map (cons c) (decodeURIComponent rest).
Proof.
  intros Hc. unfold decodeURIComponent. rewrite (unescape_literal c rest Hc).
  destruct (unescape rest); reflexivity.
Qed.

Lemma surrogate_pair_units (hi lo : N) :
  is_high_surrogate hi = true -> is_low_surrogate lo = true ->
  pair_code_point hi lo < 1114112 /\ 57343 < pair_code_point hi lo /\
  utf16_units (pair_code_point hi lo) = [hi; lo].
Proof.
  unfold is_high_surrogate, is_low_surrogate, pair_code_point, utf16_units.
  intros Hh Hl. apply andb_true_iff in Hh, Hl.
  destruct Hh as [Hh1 Hh2], Hl as [Hl1 Hl2]. apply N.leb_le in Hh1, Hh2, Hl1, Hl2.
  split; [lia|]. split; [lia|].
  decide_tests.
  replace ((hi - 55296) * 1024 + (lo - 56320) + 65536 - 65536)
    with ((hi - 55296) * 1024 + (lo - 56320)) by lia.
  f_equal; [|f_equal]; lia.
Qed.

(** The code units [encodeURIComponent] can produce: the unreserved
    characters (digits and letters among them) and the percent sign. *)
Lemma percent_octets_output (bs : list N) :
  Forall (fun b => b < 256) bs ->
  forallb (fun c => uri_unescaped c || (c =? 37)) (percent_octets bs) = true.
Proof.
  intros H. induction H as [|b bs Hb Hbs IH]; [reflexivity|].
  unfold percent_octets in *. cbn [flat_map]. rewrite forallb_app, IH, andb_true_r.
  unfold percent_octet. cbn [forallb].
  change 15 with (N.ones 4). rewrite N.land_ones, N.shiftr_div_pow2. change (2 ^ 4) with 16.
  assert (Hd : forall n, n < 16 -> uri_unescaped (hex_digit n) = true)
    by (intros n Hn; apply hex_digit_spec, Hn).
  rewrite !Hd by lia. reflexivity.
Qed.

Lemma decode_encode (s e : jsstring)
    (Hunits : Forall code_unit s) (He : encodeURIComponent s = Some e) :
  decodeURIComponent e = Some s /\
  forallb (fun c => uri_unescaped c || (c =? 37)) e = true.
Proof.
  revert e He Hunits.
  induction s as [|c rest IH1 IH2] using jsstring_pair_ind; intros e He Hunits.
  - injection He as <-. split; reflexivity.
  - cbn [encodeURIComponent] in He.
    assert (Hc : c < 65536) by (inversion Hunits; assumption).
    assert (Hrest : Forall code_unit rest) by (inversion Hunits; assumption).
    destruct (uri_unescaped c) eqn:Eu.
    + destruct (encodeURIComponent rest) as [e'|] eqn:E'; [|discriminate].
      injection He as <-. destruct (IH1 e' eq_refl Hrest) as [Hd Ho].
      rewrite (decode_literal c e' Eu), Hd. cbn [forallb]. rewrite Eu, Ho. split; reflexivity.
    + destruct (is_low_surrogate c) eqn:El; [discriminate|].
      destruct (is_high_surrogate c) eqn:Eh.
      * destruct rest as [|d rest']; [discriminate|].
        destruct (is_low_surrogate d) eqn:Ed; [|discriminate].
        destruct (encodeURIComponent rest') as [e'|] eqn:E'; [|discriminate].
        injection He as <-.
        assert (Hrest' : Forall code_unit rest') by (inversion Hrest; assumption).
        destruct (IH2 d rest' eq_refl e' E' Hrest') as [Hd Ho].
        destruct (surrogate_pair_units c d Eh Ed) as (Hlt & Hgt & Hu).
        rewrite decode_percent, Hd, Hu by (assumption || (right; assumption)).
        rewrite forallb_app, Ho, percent_octets_output by (apply utf8_octets_small, Hlt).
        split; reflexivity.
      * destruct (encodeURIComponent rest) as [e'|] eqn:E'; [|discriminate].
        injection He as <-. destruct (IH1 e' eq_refl Hrest) as [Hd Ho].
        assert (Hs : c < 55296 \/ 57343 < c).
        { unfold is_low_surrogate, is_high_surrogate in El, Eh.
          apply andb_false_iff in El, Eh.
          destruct El as [El|El], Eh as [Eh|Eh];
            try apply N.leb_gt in El; try apply N.leb_gt in Eh; lia. }
        rewrite decode_percent, Hd by (assumption || lia).
        rewrite forallb_app, Ho, percent_octets_output by (apply utf8_octets_small; lia).
        unfold utf16_units. replace (c <? 65536) with true by (symmetry; apply N.ltb_lt; lia).
        split; reflexivity.
Qed.

(** X17. For a string of 16-bit code units that [encodeURIComponent]
    accepts, [decodeURIComponent] gives the string back from the result:
    the path segment of the request URL, percent-decoded, is the
    augmented prompt.  The result holds only unreserved characters and
    [%], so it never breaks the URL it is put in. *)
Theorem decode_encode_roundtrip (s e : jsstring)
    (Hunits : Forall code_unit s) (He : encodeURIComponent s = Some e) :
  decodeURIComponent e = Some s /\
  forallb (fun c => uri_unescaped c || (c =? 37)) e = true.
Proof. exact (decode_encode s e Hunits He). Qed.

(** Latin, a euro sign, an emoji (a surrogate pair) and two separators. *)
Lemma decode_encode_roundtrip_witness :
  decodeURIComponent (js "caf%C3%A9%20%E2%82%AC%20%F0%9F%98%80%2F%3F") =
    Some (js "caf" ++ [233; 32; 8364; 32; 55357; 56832; 47; 63]).
Proof.
  apply (decode_encode_roundtrip (js "caf" ++ [233; 32; 8364; 32; 55357; 56832; 47; 63])).
  - repeat constructor.
  - reflexivity.
Defined.

Lemma well_formed_app (a b : jsstring) :
  match b with d :: _ => is_low_surrogate d = false | [] => True end ->
  well_formed (a ++ b) = well_formed a && well_formed b.
Proof.
  intros Hb. induction a as [|c rest IH1 IH2] using jsstring_pair_ind.
  - reflexivity.
  - cbn [app well_formed].
    destruct (is_low_surrogate c); [reflexivity|].
    destruct (is_high_surrogate c); [|exact IH1].
    destruct rest as [|d rest'].
    + cbn [app]. destruct b as [|d b']; [reflexivity|]. rewrite Hb. reflexivity.
    + cbn [app]. rewrite (IH2 d rest' eq_refl). apply andb_assoc.
Qed.

(** X18. With one of the 8 declared styles, [generateImage] is
    fulfilled exactly when the prompt itself is well formed, and then
    the last path segment of the image URL, percent-decoded, is the
    prompt followed by the style's suffix (for a prompt of 16-bit code
    units, as every string is). *)
Theorem generateImage_path_decodes (random : Number.RandomNumber)
    (prompt sketch : jsstring) (params : GenerationParams) (preset : StylePreset)
    (Hstyle : style params = style_name preset)
    (Hunits : Forall code_unit prompt) :
  (well_formed prompt = false ->
     generateImage random prompt sketch params = Rejected URIError) /\
  (well_formed prompt = true ->
     exists response url suffix,
       generateImage random prompt sketch params = Fulfilled response /\
       imageUrl response = Some url /\
       own_property styleSuffixes (style_name preset) = Some suffix /\
       decodeURIComponent (last_path_segment url) = Some (prompt ++ suffix)).
Proof.
  assert (Hsuffix : exists suffix,
            own_property styleSuffixes (style_name preset) = Some suffix /\
            enhancePrompt prompt (style params) = prompt ++ suffix /\
            well_formed (prompt ++ suffix) = well_formed prompt /\
            Forall code_unit suffix).
  { rewrite Hstyle.
    destruct preset; (eexists; split; [reflexivity|]; split; [reflexivity|]; split;
      [rewrite well_formed_app by reflexivity; apply andb_true_r
      | repeat constructor]). }
  destruct Hsuffix as (suffix & Hown & Henh & Hwf & Hsu).
  unfold generateImage. rewrite Henh. split.
  - intros W. rewrite <- Hwf in W. apply encodeURIComponent_None_iff in W.
    rewrite W. reflexivity.
  - intros W. rewrite <- Hwf in W. apply encodeURIComponent_Some in W.
    destruct W as [e He]. rewrite He.
    eexists. exists (request_url e 512 512 (draw_seed random)), suffix.
    split; [reflexivity|]. split; [reflexivity|]. split; [exact Hown|].
    destruct (request_url_parts _ e (draw_seed random) He) as (Hp & _). rewrite Hp.
    apply (decode_encode (prompt ++ suffix) e); [|exact He].
    apply Forall_app. split; assumption.
Qed.

(** The end-to-end scenario: "a red fox" in the anime style. *)
Lemma generateImage_path_decodes_witness :
  exists response url,
    generateImage (Number.mkRandom (S754_zero false) eq_refl) (js "a red fox") []
      (mkParams 70 (js "anime") 1 None) = Fulfilled response /\
    imageUrl response = Some url /\
    decodeURIComponent (last_path_segment url) =
      Some (js "a red fox, anime style, studio ghibli, vibrant, cel shaded, clean lines").
Proof.
  destruct (generateImage_path_decodes (Number.mkRandom (S754_zero false) eq_refl)
              (js "a red fox") [] (mkParams 70 (js "anime") 1 None) Anime eq_refl
              ltac:(repeat constructor)) as (_ & H).
  destruct (H eq_refl) as (response & url & suffix & Hg & Hu & Hs & Hd).
  exists response, url. split; [exact Hg|]. split; [exact Hu|].
  injection Hs as <-. exact Hd.
Defined.

End PercentDecoding.
